(** * Graph tensor broadcast / pool / gather operations

    A shallow embedding of [tensorflow_gnn/graph/graph_tensor_ops.py]:
    the reduction registry, the feature resolution helper, the broadcast,
    pool and first-node readout operations over scalar graph tensors, and
    the component shuffle.  Python exceptions are values of [exn] carried
    by the [result] monad; Python dictionaries are insertion-ordered
    association lists; integer tensors (indices, sizes) are lists of [Z]. *)

From stdpp Require Import base numbers list strings pretty sorting.

Set Default Proof Using "Type".
Local Open Scope Z_scope.

(** ** Exceptions and the error monad *)

Inductive key :=
  | Name (s : string)
  | Tag (t : nat)
  | NoneKey.

Inductive exn :=
  | ValueError (msg : string)
  | KeyError (k : key)
  | TypeError (msg : string)
  | AssertionError (msg : string)
  | InvalidArgumentError (msg : string).

Inductive result (A : Type) :=
  | Ok (a : A)
  | Raise (e : exn).
Arguments Ok {A} a.
Arguments Raise {A} e.

Definition result_bind {A B} (f : A → result B) (m : result A) : result B :=
  match m with
  | Ok a => f a
  | Raise e => Raise e
  end.

Definition result_map {A B} (f : A → B) (m : result A) : result B :=
  match m with
  | Ok a => Ok (f a)
  | Raise e => Raise e
  end.

#[global] Instance result_ret : MRet result := @Ok.
#[global] Instance result_mbind : MBind result := @result_bind.
#[global] Instance result_fmap : FMap result := @result_map.

Definition is_ValueError {A} (m : result A) : Prop :=
  match m with
  | Raise (ValueError _) => True
  | _ => False
  end.

Definition raises {A} (m : result A) : Prop :=
  match m with
  | Raise _ => True
  | Ok _ => False
  end.

(** ** Python dictionaries

    A [dict] keeps its keys in insertion order; assigning to a key that is
    already present keeps the key's position. *)

Module Dict.
Section Dict.
Context {K : Type} `{EqDecision K} {V : Type}.

Definition t := list (K * V).

Fixpoint get (d : list (K * V)) (k : K) : option V :=
  match d with
  | [] => None
  | (k', v) :: d' => if decide (k' = k) then Some v else get d' k
  end.

Fixpoint set (d : list (K * V)) (k : K) (v : V) : list (K * V) :=
  match d with
  | [] => [(k, v)]
  | (k', v') :: d' =>
      if decide (k' = k) then (k, v) :: d' else (k', v') :: set d' k v
  end.

Definition keys (d : list (K * V)) : list K := d.*1.

Definition contains (d : list (K * V)) (k : K) : bool :=
  bool_decide (is_Some (get d k)).
End Dict.
Arguments t : clear implicits.
End Dict.

(** [d[k]] on a dictionary with string keys: [KeyError] when absent. *)
Definition getitem {V} (d : Dict.t string V) (k : string) : result V :=
  match Dict.get d k with
  | Some v => Ok v
  | None => Raise (KeyError (Name k))
  end.

(** ** Element types

    [T] is the type of one slice of a feature along its outer dimension
    (a scalar for a feature of shape [[n]]); the reductions of the host
    framework act on it through the operations below. *)

Class Dtype (T : Type) := {
  zero : T;
  one : T;
  add : T → T → T;
  mul : T → T → T;
  div : T → T → T;
  maximum : T → T → T;
  minimum : T → T → T;
  lowest : T;
  highest : T
}.

(** Integer tensors with exact arithmetic. *)
#[global] Instance Z_dtype : Dtype Z := {|
  zero := 0; one := 1;
  add := Z.add; mul := Z.mul; div := Z.div;
  maximum := Z.max; minimum := Z.min;
  lowest := - 2 ^ 63; highest := 2 ^ 63 - 1
|}.

(** ** Features *)

Abbreviation FieldName := string (only parsing).
Abbreviation NodeSetName := string (only parsing).
Abbreviation EdgeSetName := string (only parsing).
Abbreviation IncidentNodeTag := nat (only parsing).

Definition SOURCE : IncidentNodeTag := 0%nat.
Definition TARGET : IncidentNodeTag := 1%nat.

Inductive IncidentNodeOrContextTag :=
  | CONTEXT
  | Incident (tag : IncidentNodeTag).

(** A feature value: a dense tensor (its rows along the outer dimension),
    a ragged tensor (rows of varying length), or any other value. *)
Inductive Field (T : Type) :=
  | Dense (rows : list T)
  | Ragged (rows : list (list T))
  | OtherTensor.
Arguments Dense {T} rows.
Arguments Ragged {T} rows.
Arguments OtherTensor {T}.

Definition is_dense_tensor {T} (v : Field T) : bool :=
  match v with Dense _ => true | _ => false end.

Definition is_ragged_tensor {T} (v : Field T) : bool :=
  match v with Ragged _ => true | _ => false end.

(** Size of the outer dimension of a feature. *)
Definition outer_size {T} (v : Field T) : nat :=
  match v with
  | Dense rows => length rows
  | Ragged rows => length rows
  | OtherTensor => 0%nat
  end.

(** ** Primitives of the host tensor framework

    These follow the documented behaviour of the framework's (CPU) kernels:
    out-of-range indices and segment ids are rejected, negative segment ids
    are dropped, and a segment without members reduces to the identity of
    the reduction. *)

Definition lookup_index {A} (rows : list A) (i : Z) : result A :=
  if decide (0 ≤ i) then
    match rows !! Z.to_nat i with
    | Some r => Ok r
    | None => Raise (InvalidArgumentError "indices out of range")
    end
  else Raise (InvalidArgumentError "indices out of range").

Fixpoint gather_rows {A} (rows : list A) (indices : list Z) : result (list A) :=
  match indices with
  | [] => Ok []
  | i :: indices' =>
      r ← lookup_index rows i;
      rs ← gather_rows rows indices';
      Ok (r :: rs)
  end.

(** [tf.gather(params, indices)] along the outer dimension. *)
Definition tf_gather {T} (params : Field T) (indices : list Z) : result (Field T) :=
  match params with
  | Dense rows => Dense <$> gather_rows rows indices
  | Ragged rows => Ragged <$> gather_rows rows indices
  | OtherTensor => Raise (TypeError "unsupported tensor type")
  end.

(** The rows of [data] whose segment id is [s], in their original order. *)
Definition segment_members {A} (segment_ids : list Z) (data : list A) (s : Z) : list A :=
  (filter (λ p, p.1 = s) (zip segment_ids data)).*2.

Definition check_segment_ids (outer : nat) (segment_ids : list Z) (num_segments : Z)
  : result unit :=
  if decide (length segment_ids = outer) then
    if decide (0 ≤ num_segments) then
      if decide (Forall (λ i, i < num_segments) segment_ids) then Ok ()
      else Raise (InvalidArgumentError "segment id out of range")
    else Raise (InvalidArgumentError "num_segments must be non-negative")
  else Raise (InvalidArgumentError "segment_ids must match the outer dimension of data").

Section Reductions.
Context {T : Type} `{Dtype T}.

(** Unsorted reduce operation: feature, segment ids, number of segments. *)
Definition UnsortedReduceOp := Field T → list Z → Z → result (Field T).

Definition segment_reduce (init : T) (comb : T → T → T)
    (rows : list T) (segment_ids : list Z) (num_segments : Z) : list T :=
  (λ s, foldl comb init (segment_members segment_ids rows (Z.of_nat s)))
    <$> seq 0 (Z.to_nat num_segments).

(** Ragged rows of one segment are aligned position by position; the
    output row is as long as the longest member. *)
Definition ragged_segment_reduce (init : T) (comb : T → T → T)
    (rows : list (list T)) (segment_ids : list Z) (num_segments : Z)
  : list (list T) :=
  (λ s, let ms := segment_members segment_ids rows (Z.of_nat s) in
        (λ p, foldl comb init (omap (λ r : list T, r !! p) ms))
          <$> seq 0 (max_list (length <$> ms)))
    <$> seq 0 (Z.to_nat num_segments).

Definition unsorted_segment (init : T) (comb : T → T → T) : UnsortedReduceOp :=
  λ data segment_ids num_segments,
    match data with
    | Dense rows =>
        _ ← check_segment_ids (length rows) segment_ids num_segments;
        Ok (Dense (segment_reduce init comb rows segment_ids num_segments))
    | Ragged rows =>
        _ ← check_segment_ids (length rows) segment_ids num_segments;
        Ok (Ragged (ragged_segment_reduce init comb rows segment_ids num_segments))
    | OtherTensor => Raise (TypeError "unsupported tensor type")
    end.

Definition unsorted_segment_sum : UnsortedReduceOp := unsorted_segment zero add.
Definition unsorted_segment_prod : UnsortedReduceOp := unsorted_segment one mul.
Definition unsorted_segment_max : UnsortedReduceOp := unsorted_segment lowest maximum.
Definition unsorted_segment_min : UnsortedReduceOp := unsorted_segment highest minimum.

(** The mean divides the segment sum by the number of members, a segment
    without members counting as one. *)
Definition unsorted_segment_mean : UnsortedReduceOp :=
  λ data segment_ids num_segments,
    match data with
    | Dense rows =>
        _ ← check_segment_ids (length rows) segment_ids num_segments;
        let summed := segment_reduce zero add rows segment_ids num_segments in
        let n := segment_reduce zero add (replicate (length rows) one)
                   segment_ids num_segments in
        Ok (Dense (zip_with div summed (maximum one <$> n)))
    | Ragged rows =>
        _ ← check_segment_ids (length rows) segment_ids num_segments;
        let total := ragged_segment_reduce zero add rows segment_ids num_segments in
        let count := ragged_segment_reduce zero add
                       ((λ r : list T, (λ _, one) <$> r) <$> rows)
                       segment_ids num_segments in
        Ok (Ragged (zip_with (zip_with div) total count))
    | OtherTensor => Raise (TypeError "unsupported tensor type")
    end.
End Reductions.
Arguments UnsortedReduceOp : clear implicits.

(** [tf.math.cumsum(sizes, exclusive=True)]. *)
Fixpoint cumsum_exclusive_from (acc : Z) (sizes : list Z) : list Z :=
  match sizes with
  | [] => []
  | x :: sizes' => acc :: cumsum_exclusive_from (acc + x) sizes'
  end.

Definition cumsum_exclusive (sizes : list Z) : list Z :=
  cumsum_exclusive_from 0 sizes.

(** [tf.debugging.assert_positive(x, message)]. *)
Definition assert_positive (x : list Z) (message : string) : result unit :=
  if decide (Forall (λ s, 0 < s) x) then Ok ()
  else Raise (InvalidArgumentError message).

(** [tf.argsort(values)]: indices that sort [values] in ascending order. *)
Definition key_le (a b : Z * nat) : Prop := a.1 ≤ b.1.

#[global] Instance key_le_dec : RelDecision key_le :=
  λ a b, decide (a.1 ≤ b.1).

Definition argsort (values : list Z) : list Z :=
  Z.of_nat <$> (merge_sort key_le (zip values (seq 0 (length values)))).*2.

(** Random shuffling along the outer dimension.  [G] is the state of the
    random number generator; the law is the documented contract of
    [tf.random.shuffle]. *)
Class RandomShuffle (G : Type) := {
  random_shuffle : ∀ {A : Type}, option Z → list A → G → list A * G;
  random_shuffle_perm : ∀ {A : Type} (seed : option Z) (l : list A) (g : G),
    (random_shuffle seed l g).1 ≡ₚ l
}.

(** ** Graph tensors *)

Definition Fields (T : Type) := Dict.t string (Field T).

(** Incidence tag ↦ (incident node set, node index of each edge). *)
Definition Adjacency := Dict.t IncidentNodeTag (NodeSetName * list Z).

Record Context (T : Type) := {
  context_features : Fields T;
  context_sizes : list Z
}.
Arguments context_features {T} _.
Arguments context_sizes {T} _.

Record NodeSet (T : Type) := {
  node_features : Fields T;
  node_sizes : list Z;
  node_spec_total_size : option Z
}.
Arguments node_features {T} _.
Arguments node_sizes {T} _.
Arguments node_spec_total_size {T} _.

Record EdgeSet (T : Type) := {
  edge_features : Fields T;
  edge_sizes : list Z;
  edge_spec_total_size : option Z;
  adjacency : Adjacency
}.
Arguments edge_features {T} _.
Arguments edge_sizes {T} _.
Arguments edge_spec_total_size {T} _.
Arguments adjacency {T} _.

Record GraphTensor (T : Type) := {
  rank : nat;
  context : Context T;
  node_sets : Dict.t NodeSetName (NodeSet T);
  edge_sets : Dict.t EdgeSetName (EdgeSet T)
}.
Arguments rank {T} _.
Arguments context {T} _.
Arguments node_sets {T} _.
Arguments edge_sets {T} _.

Inductive NodeOrEdgeSet (T : Type) :=
  | OfNodeSet (node_set : NodeSet T)
  | OfEdgeSet (edge_set : EdgeSet T).
Arguments OfNodeSet {T} node_set.
Arguments OfEdgeSet {T} edge_set.

Definition features {T} (s : NodeOrEdgeSet T) : Fields T :=
  match s with
  | OfNodeSet ns => node_features ns
  | OfEdgeSet es => edge_features es
  end.

Definition sizes {T} (s : NodeOrEdgeSet T) : list Z :=
  match s with
  | OfNodeSet ns => node_sizes ns
  | OfEdgeSet es => edge_sizes es
  end.

Definition sum_list_Z (l : list Z) : Z := foldr Z.add 0 l.

(** Modelled from the spec: the graph piece classes are not in the sources
    (graph_tensor.py is missing); per-component sizes determine the
    segment boundaries, so the total size of a node set is the sum of its
    component sizes. *)
Definition total_size {T} (ns : NodeSet T) : Z := sum_list_Z (node_sizes ns).

(** Modelled from the spec: [gt.check_scalar_graph_tensor] is missing from
    the sources; a scalar graph tensor is one whose batch dimension has been
    flattened away, i.e. of rank 0, and anything else is rejected. *)
Definition check_scalar_graph_tensor {T} (graph_tensor : GraphTensor T)
    (name : string) : result unit :=
  if decide (rank graph_tensor = 0%nat) then Ok ()
  else Raise (ValueError (name +:+ " requires a scalar GraphTensor.")).

(** Modelled from the spec: the adjacency class is missing from the sources;
    adjacency is a mapping from incidence tag to node-set membership index
    arrays, looked up by tag. *)
Definition node_set_name (adj : Adjacency) (node_tag : IncidentNodeTag)
  : result NodeSetName :=
  match Dict.get adj node_tag with
  | Some (name, _) => Ok name
  | None => Raise (KeyError (Tag node_tag))
  end.

Definition adjacency_getitem (adj : Adjacency) (node_tag : IncidentNodeTag)
  : result (list Z) :=
  match Dict.get adj node_tag with
  | Some (_, indices) => Ok indices
  | None => Raise (KeyError (Tag node_tag))
  end.

(** Modelled from the spec: [utils.repeat] is missing from the sources; a
    context value is broadcast by repeating the row of each component once
    per member of that component. *)
Definition repeat_rows {A} (rows : list A) (repeats : list Z) : result (list A) :=
  if decide (length rows = length repeats) then
    if decide (Forall (λ k, 0 ≤ k) repeats) then
      Ok (mjoin (zip_with (λ r k, replicate (Z.to_nat k) r) rows repeats))
    else Raise (InvalidArgumentError "repeats must be non-negative")
  else Raise (InvalidArgumentError "repeats must match the outer dimension").

Definition repeat {T} (value : Field T) (repeats : list Z) : result (Field T) :=
  match value with
  | Dense rows => Dense <$> repeat_rows rows repeats
  | Ragged rows => Ragged <$> repeat_rows rows repeats
  | OtherTensor => Raise (TypeError "unsupported tensor type")
  end.

(** Modelled from the spec: [utils.row_lengths_to_row_ids] is missing from
    the sources; component sizes determine segment boundaries, so member
    [j] of component [i] gets segment id [i]. *)
Definition row_lengths_to_row_ids (row_lengths : list Z) : result (list Z) :=
  if decide (Forall (λ k, 0 ≤ k) row_lengths) then
    Ok (mjoin (imap (λ i k, replicate (Z.to_nat k) (Z.of_nat i)) row_lengths))
  else Raise (InvalidArgumentError "row lengths must be non-negative").

(** Modelled from the spec: [utils.outer_dimension_size] is missing from the
    sources; the number of graph components is the length of the sizes. *)
Definition outer_dimension_size (sizes : list Z) : Z := Z.of_nat (length sizes).

(** Modelled from the spec: [GraphTensor.replace_features] is missing from
    the sources; a graph tensor is a container of node sets, edge sets and a
    context, each holding named features, and replacing features keeps the
    sizes and the adjacency of every piece. *)
Definition replace_features {T} (graph_tensor : GraphTensor T)
    (new_context : Fields T)
    (new_node_sets : Dict.t NodeSetName (Fields T))
    (new_edge_sets : Dict.t EdgeSetName (Fields T)) : GraphTensor T :=
  {| rank := rank graph_tensor;
     context := {| context_features := new_context;
                   context_sizes := context_sizes (context graph_tensor) |};
     node_sets :=
       (λ '(name, ns),
          match Dict.get new_node_sets name with
          | Some fs => (name, {| node_features := fs;
                                 node_sizes := node_sizes ns;
                                 node_spec_total_size := node_spec_total_size ns |})
          | None => (name, ns)
          end) <$> node_sets graph_tensor;
     edge_sets :=
       (λ '(name, es),
          match Dict.get new_edge_sets name with
          | Some fs => (name, {| edge_features := fs;
                                 edge_sizes := edge_sizes es;
                                 edge_spec_total_size := edge_spec_total_size es;
                                 adjacency := adjacency es |})
          | None => (name, es)
          end) <$> edge_sets graph_tensor |}.

(** ** The reduction registry and the operations *)

Definition is_none {A} (o : option A) : bool :=
  match o with None => true | Some _ => false end.

Section Ops.
Context {T : Type} `{Dtype T}.

Definition Registry := Dict.t string (UnsortedReduceOp T).

(** The registry as populated when the module is loaded. *)
Definition _REGISTERED_REDUCE_OPS : Registry :=
  [ ("sum", unsorted_segment_sum);
    ("mean", unsorted_segment_mean);
    ("max", unsorted_segment_max);
    ("min", unsorted_segment_min);
    ("prod", unsorted_segment_prod) ].

Definition get_registered_reduce_operation_names (reg : Registry) : list string :=
  Dict.keys reg.

Definition already_exists_msg : string :=
  "Reduce operation with that name already exists. Call `get_registered_reduce_operation_names()` for the full list of registered operations or set `override_existing=True` to allow to redefine existing operations.".

(** Returns the outcome of the call and the registry after it. *)
Definition register_reduce_operation (reg : Registry) (reduce_type : string)
    (unsorted_reduce_op : UnsortedReduceOp T) (allow_override : bool)
  : result unit * Registry :=
  if negb allow_override && Dict.contains reg reduce_type
  then (Raise (ValueError already_exists_msg), reg)
  else (Ok (), Dict.set reg reduce_type unsorted_reduce_op).

Definition unknown_reduce_type_msg (reduce_type : string) : string :=
  "Unknown reduce type " +:+ reduce_type +:+
  ". Call `get_registered_reduce_operation_names()` for the full list of registered operations.".

Definition _resolve_reduce_op (reg : Registry) (reduce_type : string)
  : result (UnsortedReduceOp T) :=
  match Dict.get reg reduce_type with
  | Some op => Ok op
  | None => Raise (ValueError (unknown_reduce_type_msg reduce_type))
  end.

Definition resolve_value (values_map : Fields T)
    (feature_value : option (Field T)) (feature_name : option FieldName)
  : result (Field T) :=
  if Bool.eqb (is_none feature_value) (is_none feature_name) then
    Raise (ValueError "One of feature name of feature value must be specified.")
  else
    match feature_value with
    | Some v => Ok v
    | None =>
        match feature_name with
        | Some name => getitem values_map name
        | None => Raise (AssertionError
                           "This should never happen, please file a bug with TF-GNN.")
        end
    end.

Definition broadcast_node_to_edges (graph_tensor : GraphTensor T)
    (edge_set_name : EdgeSetName) (node_tag : IncidentNodeTag)
    (feature_value : option (Field T)) (feature_name : option FieldName)
  : result (Field T) :=
  _ ← check_scalar_graph_tensor graph_tensor "tfgnn.broadcast_node_to_edges()";
  edge_set ← getitem (edge_sets graph_tensor) edge_set_name;
  let adjacency := adjacency edge_set in
  node_name ← node_set_name adjacency node_tag;
  node_set ← getitem (node_sets graph_tensor) node_name;
  node_value ← resolve_value (node_features node_set) feature_value feature_name;
  indices ← adjacency_getitem adjacency node_tag;
  tf_gather node_value indices.

Definition pool_edges_to_node (reg : Registry) (graph_tensor : GraphTensor T)
    (edge_set_name : EdgeSetName) (node_tag : IncidentNodeTag)
    (reduce_type : string)
    (feature_value : option (Field T)) (feature_name : option FieldName)
  : result (Field T) :=
  _ ← check_scalar_graph_tensor graph_tensor "tfgnn.pool_edges_to_node()";
  unsorted_reduce_op ← _resolve_reduce_op reg reduce_type;
  edge_set ← getitem (edge_sets graph_tensor) edge_set_name;
  edge_value ← resolve_value (edge_features edge_set) feature_value feature_name;
  let adjacency := adjacency edge_set in
  node_name ← node_set_name adjacency node_tag;
  node_set ← getitem (node_sets graph_tensor) node_name;
  let total_node_count :=
    match node_spec_total_size node_set with
    | Some n => n
    | None => total_size node_set
    end in
  indices ← adjacency_getitem adjacency node_tag;
  unsorted_reduce_op edge_value indices total_node_count.

Definition _broadcast_context (graph_tensor : GraphTensor T)
    (node_or_edge_set : NodeOrEdgeSet T)
    (feature_value : option (Field T)) (feature_name : option FieldName)
  : result (Field T) :=
  _ ← check_scalar_graph_tensor graph_tensor "tfgnn.broadcast_context_to_*()";
  context_value ← resolve_value (context_features (context graph_tensor))
                    feature_value feature_name;
  repeat context_value (sizes node_or_edge_set).

Definition _pool_to_context (reg : Registry) (graph_tensor : GraphTensor T)
    (node_or_edge_set : NodeOrEdgeSet T) (reduce_type : string)
    (feature_value : option (Field T)) (feature_name : option FieldName)
  : result (Field T) :=
  _ ← check_scalar_graph_tensor graph_tensor "tfgnn.pool_*_to_context()";
  value ← resolve_value (features node_or_edge_set) feature_value feature_name;
  let sizes := sizes node_or_edge_set in
  unsorted_reduce_op ← _resolve_reduce_op reg reduce_type;
  row_ids ← row_lengths_to_row_ids sizes;
  unsorted_reduce_op value row_ids (outer_dimension_size sizes).

Definition broadcast_context_to_nodes (graph_tensor : GraphTensor T)
    (node_set_name : NodeSetName)
    (feature_value : option (Field T)) (feature_name : option FieldName)
  : result (Field T) :=
  node_set ← getitem (node_sets graph_tensor) node_set_name;
  _broadcast_context graph_tensor (OfNodeSet node_set) feature_value feature_name.

Definition broadcast_context_to_edges (graph_tensor : GraphTensor T)
    (edge_set_name : EdgeSetName)
    (feature_value : option (Field T)) (feature_name : option FieldName)
  : result (Field T) :=
  edge_set ← getitem (edge_sets graph_tensor) edge_set_name;
  _broadcast_context graph_tensor (OfEdgeSet edge_set) feature_value feature_name.

Definition pool_nodes_to_context (reg : Registry) (graph_tensor : GraphTensor T)
    (node_set_name : NodeSetName) (reduce_type : string)
    (feature_value : option (Field T)) (feature_name : option FieldName)
  : result (Field T) :=
  node_set ← getitem (node_sets graph_tensor) node_set_name;
  _pool_to_context reg graph_tensor (OfNodeSet node_set) reduce_type
    feature_value feature_name.

Definition pool_edges_to_context (reg : Registry) (graph_tensor : GraphTensor T)
    (edge_set_name : EdgeSetName) (reduce_type : string)
    (feature_value : option (Field T)) (feature_name : option FieldName)
  : result (Field T) :=
  edge_set ← getitem (edge_sets graph_tensor) edge_set_name;
  _pool_to_context reg graph_tensor (OfEdgeSet edge_set) reduce_type
    feature_value feature_name.
End Ops.
Arguments Registry : clear implicits.

Section GenericOps.
Context {T : Type}.

(** Helper for the generic [broadcast] and [pool]. *)
Definition _validate_names_and_tag (tag : IncidentNodeOrContextTag)
    (edge_set_name : option EdgeSetName) (node_set_name : option NodeSetName)
  : result unit :=
  match tag with
  | CONTEXT =>
      let num_names :=
        (Nat.b2n (is_none edge_set_name) + Nat.b2n (is_none node_set_name))%nat in
      if decide (num_names ≠ 1%nat) then
        Raise (ValueError
                 ("With tag CONTEXT, must pass exactly 1 of edge_set_name, node_set_name; got "
                  +:+ pretty num_names +:+ "."))
      else Ok ()
  | Incident _ =>
      if is_none edge_set_name || negb (is_none node_set_name) then
        Raise (ValueError
                 "Must pass edge_set_name but not node_set_name for a tag other than CONTEXT.")
      else Ok ()
  end.

(** A set name that may be [None]: indexing a mapping of sets by [None]
    is a [KeyError]. *)
Definition with_name {A} (name : option string) (k : string → result A) : result A :=
  match name with
  | Some n => k n
  | None => Raise (KeyError NoneKey)
  end.

Definition broadcast (graph_tensor : GraphTensor T)
    (from_tag : IncidentNodeOrContextTag)
    (edge_set_name : option EdgeSetName) (node_set_name : option NodeSetName)
    (feature_value : option (Field T)) (feature_name : option FieldName)
  : result (Field T) :=
  _ ← _validate_names_and_tag from_tag edge_set_name node_set_name;
  match from_tag with
  | CONTEXT =>
      match node_set_name with
      | Some n => broadcast_context_to_nodes graph_tensor n feature_value feature_name
      | None =>
          with_name edge_set_name (λ e,
            broadcast_context_to_edges graph_tensor e feature_value feature_name)
      end
  | Incident node_tag =>
      with_name edge_set_name (λ e,
        broadcast_node_to_edges graph_tensor e node_tag feature_value feature_name)
  end.

Definition pool (reg : Registry T) (graph_tensor : GraphTensor T)
    (to_tag : IncidentNodeOrContextTag)
    (edge_set_name : option EdgeSetName) (node_set_name : option NodeSetName)
    (reduce_type : string)
    (feature_value : option (Field T)) (feature_name : option FieldName)
  : result (Field T) :=
  _ ← _validate_names_and_tag to_tag edge_set_name node_set_name;
  match to_tag with
  | CONTEXT =>
      match node_set_name with
      | Some n =>
          pool_nodes_to_context reg graph_tensor n reduce_type feature_value feature_name
      | None =>
          with_name edge_set_name (λ e,
            pool_edges_to_context reg graph_tensor e reduce_type
              feature_value feature_name)
      end
  | Incident node_tag =>
      with_name edge_set_name (λ e,
        pool_edges_to_node reg graph_tensor e node_tag reduce_type
          feature_value feature_name)
  end.

Definition no_nodes_msg (node_set_name : NodeSetName) : string :=
  "tfgnn.gather_first_node(..., node_set_name=" +:+ node_set_name +:+
  ") called for a graph in which one or more components contain no nodes.".

Definition gather_first_node (graph_tensor : GraphTensor T)
    (node_set_name : NodeSetName)
    (feature_value : option (Field T)) (feature_name : option FieldName)
  : result (Field T) :=
  _ ← check_scalar_graph_tensor graph_tensor "tfgnn.gather_first_node()";
  node_set ← getitem (node_sets graph_tensor) node_set_name;
  node_value ← resolve_value (node_features node_set) feature_value feature_name;
  let sizes := node_sizes node_set in
  _ ← assert_positive sizes (no_nodes_msg node_set_name);
  let components_starts := cumsum_exclusive sizes in
  tf_gather node_value components_starts.
End GenericOps.

(** ** Shuffling features across components *)

(** [RaggedTensor.value_rowids()]: the row index of every flat value. *)
Definition value_rowids {A} (rows : list (list A)) : list Z :=
  mjoin (imap (λ i r, replicate (length r) (Z.of_nat i)) rows).

Fixpoint split_rows {A} (row_lengths : list nat) (values : list A) : list (list A) :=
  match row_lengths with
  | [] => []
  | n :: row_lengths' => take n values :: split_rows row_lengths' (drop n values)
  end.

(** [RaggedTensor.with_values(new_values)]: same row partition, new flat
    values (which must be as many as the old ones). *)
Definition with_values {T} (rows : list (list T)) (new_values : list T)
  : result (Field T) :=
  if decide (length new_values = length (mjoin rows)) then
    Ok (Ragged (split_rows (length <$> rows) new_values))
  else Raise (ValueError "new values must have the same outer dimension").

Definition unsupported_msg (feature_name : FieldName) : string :=
  "Operation is currently supported only for dense or ragged tensors, got feature_name="
  +:+ feature_name.

Section Shuffle.
Context {T G : Type} `{RandomShuffle G}.

Definition _shuffle (features : Fields T) (seed : option Z)
    (feature_name : FieldName) (g : G) : result (Field T * G) :=
  feature_value ← getitem features feature_name;
  match feature_value with
  | Dense rows =>
      let '(rows', g') := random_shuffle seed rows g in
      Ok (Dense rows', g')
  | Ragged rows =>
      let '(shuffled_value_rowids, g') := random_shuffle seed (value_rowids rows) g in
      let values := mjoin rows in
      new_values ← gather_rows values (argsort shuffled_value_rowids);
      shuffled ← with_values rows new_values;
      Ok (shuffled, g')
  | OtherTensor => Raise (ValueError (unsupported_msg feature_name))
  end.

(** The dictionary comprehension over [features.keys()], in key order. *)
Fixpoint shuffle_names (features : Fields T) (seed : option Z)
    (names : list FieldName) (g : G) : result (Fields T * G) :=
  match names with
  | [] => Ok ([], g)
  | name :: names' =>
      '(v, g1) ← _shuffle features seed name g;
      '(rest, g2) ← shuffle_names features seed names' g1;
      Ok ((name, v) :: rest, g2)
  end.

Definition _shuffle_features (features : Fields T) (seed : option Z) (g : G)
  : result (Fields T * G) :=
  shuffle_names features seed (Dict.keys features) g.

(** The loops over [node_sets.items()] and [edge_sets.items()]. *)
Fixpoint shuffle_sets (sets : list (string * Fields T)) (seed : option Z) (g : G)
  : result (Dict.t string (Fields T) * G) :=
  match sets with
  | [] => Ok ([], g)
  | (name, fs) :: sets' =>
      '(fs', g1) ← _shuffle_features fs seed g;
      '(rest, g2) ← shuffle_sets sets' seed g1;
      Ok ((name, fs') :: rest, g2)
  end.

Definition shuffle_scalar_components (graph_tensor : GraphTensor T)
    (seed : option Z) (g : G) : result (GraphTensor T * G) :=
  _ ← check_scalar_graph_tensor graph_tensor "tfgnn.shuffle_scalar_components()";
  '(context, g0) ← _shuffle_features (context_features (context graph_tensor)) seed g;
  '(node_sets, g1) ←
    shuffle_sets (prod_map id node_features <$> node_sets graph_tensor) seed g0;
  '(edge_sets, g2) ←
    shuffle_sets (prod_map id edge_features <$> edge_sets graph_tensor) seed g1;
  Ok (replace_features graph_tensor context node_sets edge_sets, g2).
End Shuffle.

(** ** Calls of the module's operations

    One constructor per broadcast, pool and gather operation, carrying the
    arguments other than the feature; [call] dispatches to the operation. *)

Inductive OpCall :=
  | BroadcastNodeToEdges (edge_set_name : EdgeSetName) (node_tag : IncidentNodeTag)
  | PoolEdgesToNode (edge_set_name : EdgeSetName) (node_tag : IncidentNodeTag)
      (reduce_type : string)
  | BroadcastContextToNodes (node_set_name : NodeSetName)
  | BroadcastContextToEdges (edge_set_name : EdgeSetName)
  | PoolNodesToContext (node_set_name : NodeSetName) (reduce_type : string)
  | PoolEdgesToContext (edge_set_name : EdgeSetName) (reduce_type : string)
  | Broadcast (from_tag : IncidentNodeOrContextTag)
      (edge_set_name : option EdgeSetName) (node_set_name : option NodeSetName)
  | Pool (to_tag : IncidentNodeOrContextTag)
      (edge_set_name : option EdgeSetName) (node_set_name : option NodeSetName)
      (reduce_type : string)
  | GatherFirstNode (node_set_name : NodeSetName).

Section Calls.
Context {T : Type}.

Definition call (reg : Registry T) (g : GraphTensor T) (c : OpCall)
    (feature_value : option (Field T)) (feature_name : option FieldName)
  : result (Field T) :=
  match c with
  | BroadcastNodeToEdges e tag =>
      broadcast_node_to_edges g e tag feature_value feature_name
  | PoolEdgesToNode e tag rt =>
      pool_edges_to_node reg g e tag rt feature_value feature_name
  | BroadcastContextToNodes n =>
      broadcast_context_to_nodes g n feature_value feature_name
  | BroadcastContextToEdges e =>
      broadcast_context_to_edges g e feature_value feature_name
  | PoolNodesToContext n rt =>
      pool_nodes_to_context reg g n rt feature_value feature_name
  | PoolEdgesToContext e rt =>
      pool_edges_to_context reg g e rt feature_value feature_name
  | Broadcast tag e n => broadcast g tag e n feature_value feature_name
  | Pool tag e n rt => pool reg g tag e n rt feature_value feature_name
  | GatherFirstNode n => gather_first_node g n feature_value feature_name
  end.

Definition node_set_features (g : GraphTensor T) (n : NodeSetName)
  : result (Fields T) :=
  node_features <$> getitem (node_sets g) n.

Definition edge_set_features (g : GraphTensor T) (e : EdgeSetName)
  : result (Fields T) :=
  edge_features <$> getitem (edge_sets g) e.

Definition incident_node_set (g : GraphTensor T) (e : EdgeSetName)
    (tag : IncidentNodeTag) : result (NodeSet T) :=
  edge_set ← getitem (edge_sets g) e;
  node_name ← node_set_name (adjacency edge_set) tag;
  getitem (node_sets g) node_name.

(** The mapping in which a call looks a feature name up, when the sets
    (and the tag) named by the call exist in the graph tensor. *)
Definition values_map (g : GraphTensor T) (c : OpCall) : result (Fields T) :=
  match c with
  | BroadcastNodeToEdges e tag => node_features <$> incident_node_set g e tag
  | PoolEdgesToNode e tag _ | Pool (Incident tag) (Some e) None _ =>
      _ ← incident_node_set g e tag;
      edge_set_features g e
  | BroadcastContextToNodes n | Broadcast CONTEXT None (Some n) =>
      _ ← getitem (node_sets g) n; Ok (context_features (context g))
  | BroadcastContextToEdges e | Broadcast CONTEXT (Some e) None =>
      _ ← getitem (edge_sets g) e; Ok (context_features (context g))
  | PoolNodesToContext n _ | Pool CONTEXT None (Some n) _ => node_set_features g n
  | PoolEdgesToContext e _ | Pool CONTEXT (Some e) None _ => edge_set_features g e
  | Broadcast (Incident tag) (Some e) None =>
      node_features <$> incident_node_set g e tag
  | GatherFirstNode n => node_set_features g n
  | Broadcast _ _ _ | Pool _ _ _ _ => Raise (KeyError NoneKey)
  end.

Definition is_pooling (c : OpCall) : option string :=
  match c with
  | PoolEdgesToNode _ _ rt | PoolNodesToContext _ rt | PoolEdgesToContext _ rt
  | Pool _ _ _ rt => Some rt
  | _ => None
  end.

Definition context_segments (sizes : list Z) : result (list Z * Z) :=
  row_ids ← row_lengths_to_row_ids sizes;
  Ok (row_ids, outer_dimension_size sizes).

Definition node_segments (g : GraphTensor T) (e : EdgeSetName)
    (tag : IncidentNodeTag) : result (list Z * Z) :=
  edge_set ← getitem (edge_sets g) e;
  node_set ← incident_node_set g e tag;
  indices ← adjacency_getitem (adjacency edge_set) tag;
  Ok (indices, default (total_size node_set) (node_spec_total_size node_set)).

(** Segment ids and number of segments handed to the reduction by a
    pooling call. *)
Definition pool_segments (g : GraphTensor T) (c : OpCall) : result (list Z * Z) :=
  match c with
  | PoolEdgesToNode e tag _ | Pool (Incident tag) (Some e) None _ =>
      node_segments g e tag
  | PoolNodesToContext n _ | Pool CONTEXT None (Some n) _ =>
      node_set ← getitem (node_sets g) n; context_segments (node_sizes node_set)
  | PoolEdgesToContext e _ | Pool CONTEXT (Some e) None _ =>
      edge_set ← getitem (edge_sets g) e; context_segments (edge_sizes edge_set)
  | _ => Raise (KeyError NoneKey)
  end.
End Calls.

(** ** Trajectory-length adaptation kernel results *)

Module TrajectoryLengthAdaptation.
Section Kernel.
(** [State] is the chain state, [Seed] the per-step seed and [R] the
    type of the accumulators. *)
Context {State Seed R : Type}.

(** Modelled from the spec: the kernel-results structure is not in the
    sources (only the kernel's test is); it is the per-step state threaded
    through bootstrap → one_step → new results, carrying the adaptation
    accumulators (trajectory length, squared-gradient running average). *)
Record KernelResults := {
  step : nat;
  max_trajectory_length : R;
  averaged_sq_grad : R
}.

(** The wrapped sampler's transition and the accumulator updates of one
    adaptation step; their numerics belong to the host framework. *)
Variable inner_one_step : State → R → Seed → State.
Variable update_max_trajectory_length : State → State → KernelResults → R.
Variable update_averaged_sq_grad : State → State → KernelResults → R.
Variable initial_max_trajectory_length : R.
Variable initial_averaged_sq_grad : R.
(** The configured adaptation horizon. *)
Variable num_adaptation_steps : nat.

(** Modelled from the spec: [bootstrap_results] is missing from the
    sources; it starts the protocol with the initial accumulators. *)
Definition bootstrap_results (state : State) : KernelResults :=
  {| step := 0;
     max_trajectory_length := initial_max_trajectory_length;
     averaged_sq_grad := initial_averaged_sq_grad |}.

(** Modelled from the spec: [one_step] is missing from the sources; the
    accumulators are updated per adaptation step and freeze after the
    configured adaptation horizon. *)
Definition one_step (state : State) (previous_kernel_results : KernelResults)
    (seed : Seed) : State * KernelResults :=
  let new_state :=
    inner_one_step state (max_trajectory_length previous_kernel_results) seed in
  let adapting :=
    bool_decide (step previous_kernel_results < num_adaptation_steps)%nat in
  (new_state,
   {| step := S (step previous_kernel_results);
      max_trajectory_length :=
        if adapting
        then update_max_trajectory_length state new_state previous_kernel_results
        else max_trajectory_length previous_kernel_results;
      averaged_sq_grad :=
        if adapting
        then update_averaged_sq_grad state new_state previous_kernel_results
        else averaged_sq_grad previous_kernel_results |}).

(** The chain after [k] calls of [one_step] following [bootstrap_results];
    [seeds i] is the seed of call [i]. *)
Fixpoint run (state : State) (seeds : nat → Seed) (k : nat)
  : State * KernelResults :=
  match k with
  | O => (state, bootstrap_results state)
  | S k' =>
      let '(s, kr) := run state seeds k' in
      one_step s kr (seeds k')
  end.

Definition accumulators (kr : KernelResults) : R * R :=
  (max_trajectory_length kr, averaged_sq_grad kr).
End Kernel.
Arguments KernelResults : clear implicits.
End TrajectoryLengthAdaptation.

(** ** Views of features used to state the properties *)

(** One row of a feature along its outer dimension. *)
Inductive Row (T : Type) :=
  | DenseRow (x : T)
  | RaggedRow (r : list T).
Arguments DenseRow {T} x.
Arguments RaggedRow {T} r.

Definition field_rows {T} (v : Field T) : list (Row T) :=
  match v with
  | Dense rows => DenseRow <$> rows
  | Ragged rows => RaggedRow <$> rows
  | OtherTensor => []
  end.

(** Row [k] of [rows] exists and is [r]. *)
Definition row_at {A} (rows : list A) (k : Z) (r : A) : Prop :=
  0 ≤ k ∧ rows !! Z.to_nat k = Some r.

Definition is_supported {T} (v : Field T) : bool :=
  is_dense_tensor v || is_ragged_tensor v.

(** Number of nodes handed to the reduction when pooling to a node set:
    the static total size when known, the dynamic one otherwise. *)
Definition total_node_count {T} (ns : NodeSet T) : Z :=
  default (total_size ns) (node_spec_total_size ns).

(** A shuffled feature: a dense feature has its rows permuted; a ragged
    feature keeps its row partition and has its flat values permuted. *)
Definition field_shuffled {T} (v v' : Field T) : Prop :=
  match v, v' with
  | Dense rows, Dense rows' => rows' ≡ₚ rows
  | Ragged rows, Ragged rows' =>
      length <$> rows' = length <$> rows ∧ mjoin rows' ≡ₚ mjoin rows
  | _, _ => False
  end.

Definition fields_shuffled {T} (fs fs' : Fields T) : Prop :=
  Dict.keys fs' = Dict.keys fs
  ∧ ∀ name v, Dict.get fs name = Some v →
      ∃ v', Dict.get fs' name = Some v' ∧ field_shuffled v v'.

(** Every feature of the mapping is a dense or a ragged tensor. *)
Definition name_supported {T} (fs : Fields T) (name : FieldName) : bool :=
  from_option is_supported true (Dict.get fs name).

Definition fields_supported {T} (fs : Fields T) : bool :=
  forallb (name_supported fs) (Dict.keys fs).

Definition graph_supported {T} (g : GraphTensor T) : bool :=
  fields_supported (context_features (context g))
  && forallb (λ p, fields_supported (node_features p.2)) (node_sets g)
  && forallb (λ p, fields_supported (edge_features p.2)) (edge_sets g).

(** A shuffled graph tensor: same rank, same sets under the same names, same
    component sizes and adjacency; only feature values differ, each being a
    shuffle of the original. *)
Definition node_set_shuffled {T} (ns ns' : NodeSet T) : Prop :=
  node_sizes ns' = node_sizes ns
  ∧ node_spec_total_size ns' = node_spec_total_size ns
  ∧ fields_shuffled (node_features ns) (node_features ns').

Definition edge_set_shuffled {T} (es es' : EdgeSet T) : Prop :=
  edge_sizes es' = edge_sizes es
  ∧ edge_spec_total_size es' = edge_spec_total_size es
  ∧ adjacency es' = adjacency es
  ∧ fields_shuffled (edge_features es) (edge_features es').

Definition graph_shuffled {T} (g g' : GraphTensor T) : Prop :=
  rank g' = rank g
  ∧ context_sizes (context g') = context_sizes (context g)
  ∧ fields_shuffled (context_features (context g)) (context_features (context g'))
  ∧ Dict.keys (node_sets g') = Dict.keys (node_sets g)
  ∧ (∀ name ns, Dict.get (node_sets g) name = Some ns →
       ∃ ns', Dict.get (node_sets g') name = Some ns' ∧ node_set_shuffled ns ns')
  ∧ Dict.keys (edge_sets g') = Dict.keys (edge_sets g)
  ∧ (∀ name es, Dict.get (edge_sets g) name = Some es →
       ∃ es', Dict.get (edge_sets g') name = Some es' ∧ edge_set_shuffled es es').

(** ** Example data *)

(** A scalar graph tensor with two components, one node set of three nodes
    and one edge set of three edges; every node is the source of exactly one
    edge, while node 1 is the target of none. *)
Definition example_graph : GraphTensor Z :=
  {| rank := 0;
     context := {| context_features := [("label", Dense [100; 200])];
                   context_sizes := [1; 1] |};
     node_sets :=
       [("paper", {| node_features := [("hidden", Dense [10; 20; 30]);
                                        ("words", Ragged [[1; 2]; []; [3]])];
                     node_sizes := [2; 1];
                     node_spec_total_size := None |})];
     edge_sets :=
       [("cites", {| edge_features := [("weight", Dense [1; 2; 3])];
                     edge_sizes := [2; 1];
                     edge_spec_total_size := Some 3;
                     adjacency := [(SOURCE, ("paper", [2; 0; 1]));
                                   (TARGET, ("paper", [0; 0; 2]))] |})] |}.

(** The same graph with an empty second component in its node set. *)
Definition example_graph_empty_component : GraphTensor Z :=
  {| rank := 0;
     context := context example_graph;
     node_sets :=
       [("paper", {| node_features := [("hidden", Dense [10; 20; 30])];
                     node_sizes := [3; 0];
                     node_spec_total_size := None |})];
     edge_sets := edge_sets example_graph |}.

(** The example graph with a feature that is neither dense nor ragged. *)
Definition example_graph_unsupported : GraphTensor Z :=
  {| rank := 0;
     context := context example_graph;
     node_sets :=
       [("paper", {| node_features := [("hidden", Dense [10; 20; 30]);
                                        ("terms", OtherTensor)];
                     node_sizes := [2; 1];
                     node_spec_total_size := None |})];
     edge_sets := edge_sets example_graph |}.

(** A deterministic stand-in for the random number generator: every draw
    reverses the rows and advances the state. *)
#[global] Instance reverse_shuffle : RandomShuffle nat := {|
  random_shuffle A seed l g := (reverse l, S g);
  random_shuffle_perm A seed l g := reverse_Permutation l
|}.

(** The example graph before its batch dimension is merged away: rank 1. *)
Definition example_batched_graph : GraphTensor Z :=
  {| rank := 1;
     context := context example_graph;
     node_sets := node_sets example_graph;
     edge_sets := edge_sets example_graph |}.

(** ** Views of segment ids and repeated rows *)

(** Row ids of consecutive components, numbered from [j] on, with the
    given numbers of members. *)
Definition row_ids_from (j : nat) (lengths : list nat) : list Z :=
  mjoin (imap (λ i k, replicate k (Z.of_nat (j + i))) lengths).

(** Every row repeated as many times as its component has members. *)
Definition repeated {A} (rows : list A) (repeats : list Z) : list A :=
  mjoin (zip_with (λ r k, replicate (Z.to_nat k) r) rows repeats).

(** * Properties *)

(** ** Dictionaries *)

Section DictFacts.
Context {K : Type} `{EqDecision K} {V : Type}.
Implicit Types (d : list (K * V)) (k : K) (v : V).

Lemma dict_get_set_eq d k v : Dict.get (Dict.set d k v) k = Some v.
Proof.
  induction d as [|[k' v'] d IH]; simpl.
  - by rewrite decide_True.
  - destruct (decide (k' = k)) as [->|Hne]; simpl.
    + by rewrite decide_True.
    + by rewrite decide_False.
Qed.

Lemma dict_get_set_ne d k k' v :
  k' ≠ k → Dict.get (Dict.set d k v) k' = Dict.get d k'.
Proof.
  intros Hne. induction d as [|[k0 v0] d IH]; simpl.
  - rewrite decide_False; [done|]. by intros ->.
  - destruct (decide (k0 = k)) as [->|Hk0]; simpl.
    + rewrite !decide_False; [done| |]; by intros ->.
    + by rewrite IH.
Qed.

Lemma dict_keys_set_present d k v :
  is_Some (Dict.get d k) → Dict.keys (Dict.set d k v) = Dict.keys d.
Proof.
  unfold Dict.keys. induction d as [|[k0 v0] d IH]; csimpl.
  - by intros [? ?].
  - destruct (decide (k0 = k)) as [->|Hk0]; csimpl; [done|].
    intros Hs. by rewrite IH.
Qed.

Lemma dict_keys_set_absent d k v :
  Dict.get d k = None → Dict.keys (Dict.set d k v) = Dict.keys d ++ [k].
Proof.
  unfold Dict.keys. induction d as [|[k0 v0] d IH]; csimpl; [done|].
  destruct (decide (k0 = k)) as [->|Hk0]; csimpl; [done|].
  intros Hs. by rewrite IH.
Qed.

Lemma dict_elem_of_keys d k : k ∈ Dict.keys d ↔ is_Some (Dict.get d k).
Proof.
  unfold Dict.keys. induction d as [|[k0 v0] d IH]; csimpl.
  - split; [by intros ?%elem_of_nil | by intros [? ?]].
  - rewrite elem_of_cons. destruct (decide (k0 = k)) as [->|Hk0].
    + split; [by eauto | by left].
    + rewrite IH. split; [|by right]. intros [->|?]; done.
Qed.

Lemma dict_contains_spec d k : Dict.contains d k = true ↔ is_Some (Dict.get d k).
Proof. unfold Dict.contains. by rewrite bool_decide_eq_true. Qed.
End DictFacts.

(** ** The reduction registry *)

(** C2: when the module is loaded, before any registration, the registry
    holds exactly the five names sum, mean, max, min and prod, and
    [get_registered_reduce_operation_names] returns exactly these. *)
Theorem registry_at_load_time {T : Type} `{Dtype T} :
  get_registered_reduce_operation_names (_REGISTERED_REDUCE_OPS (T:=T))
    = ["sum"; "mean"; "max"; "min"; "prod"]
  ∧ (∀ name : string,
       is_Some (Dict.get (_REGISTERED_REDUCE_OPS (T:=T)) name)
       ↔ name ∈ ["sum"; "mean"; "max"; "min"; "prod"])
  ∧ Dict.get (_REGISTERED_REDUCE_OPS (T:=T)) "sum" = Some unsorted_segment_sum
  ∧ Dict.get (_REGISTERED_REDUCE_OPS (T:=T)) "mean" = Some unsorted_segment_mean
  ∧ Dict.get (_REGISTERED_REDUCE_OPS (T:=T)) "max" = Some unsorted_segment_max
  ∧ Dict.get (_REGISTERED_REDUCE_OPS (T:=T)) "min" = Some unsorted_segment_min
  ∧ Dict.get (_REGISTERED_REDUCE_OPS (T:=T)) "prod" = Some unsorted_segment_prod.
Proof.
  split; [reflexivity|]. split; [|by repeat split].
  intros name. rewrite <- dict_elem_of_keys. reflexivity.
Qed.

(** C4: without [allow_override], registering a name that is already
    registered raises a [ValueError] and leaves the registry unchanged;
    when the name is not registered, or [allow_override] is set, the call
    succeeds and maps the name to the given operation (a new name is added
    after the existing ones, an existing name keeps its place), and no other
    entry changes. *)
Theorem register_reduce_operation_spec {T : Type} (reg : Registry T)
    (reduce_type : string) (op : UnsortedReduceOp T) (allow_override : bool) :
  let outcome := register_reduce_operation reg reduce_type op allow_override in
  (allow_override = false → is_Some (Dict.get reg reduce_type) →
     outcome = (Raise (ValueError already_exists_msg), reg))
  ∧ (allow_override = true ∨ Dict.get reg reduce_type = None →
       outcome.1 = Ok ()
       ∧ Dict.get outcome.2 reduce_type = Some op
       ∧ (∀ other, other ≠ reduce_type →
            Dict.get outcome.2 other = Dict.get reg other)
       ∧ (Dict.get reg reduce_type = None →
            get_registered_reduce_operation_names outcome.2
            = get_registered_reduce_operation_names reg ++ [reduce_type])
       ∧ (is_Some (Dict.get reg reduce_type) →
            get_registered_reduce_operation_names outcome.2
            = get_registered_reduce_operation_names reg)).
Proof.
  unfold register_reduce_operation. split.
  - intros -> Hs. apply dict_contains_spec in Hs. by rewrite Hs.
  - intros Hok.
    assert (negb allow_override && Dict.contains reg reduce_type = false) as ->.
    { destruct Hok as [->|Hnone]; [done|].
      apply andb_false_iff. right. apply not_true_iff_false.
      rewrite dict_contains_spec, Hnone. by intros [? ?]. }
    simpl. split; [done|]. split; [apply dict_get_set_eq|].
    split; [intros other Hne; by apply dict_get_set_ne|].
    split; [apply dict_keys_set_absent | apply dict_keys_set_present].
Qed.

Lemma register_reduce_operation_spec_witness :
  register_reduce_operation (T:=Z) _REGISTERED_REDUCE_OPS "sum"
    unsorted_segment_max false
  = (Raise (ValueError already_exists_msg), _REGISTERED_REDUCE_OPS)
  ∧ Dict.get (register_reduce_operation (T:=Z) _REGISTERED_REDUCE_OPS "sum"
                unsorted_segment_max true).2 "sum" = Some unsorted_segment_max
  ∧ get_registered_reduce_operation_names
      (register_reduce_operation (T:=Z) _REGISTERED_REDUCE_OPS "first"
         unsorted_segment_max false).2
    = ["sum"; "mean"; "max"; "min"; "prod"; "first"].
Proof.
  split; [|split].
  - apply (register_reduce_operation_spec (T:=Z) _REGISTERED_REDUCE_OPS "sum"
             unsorted_segment_max false); [reflexivity | by eexists].
  - apply (register_reduce_operation_spec (T:=Z) _REGISTERED_REDUCE_OPS "sum"
             unsorted_segment_max true). by left.
  - refine (proj1 (proj2 (proj2 (proj2 (proj2
      (register_reduce_operation_spec (T:=Z) _REGISTERED_REDUCE_OPS "first"
         unsorted_segment_max false) _)))) _); [by right | reflexivity].
Defined.

(** ** Feature arguments and reduce types *)

Ltac unfold_result :=
  unfold mbind, result_mbind, result_bind, fmap, result_fmap, result_map,
    mret, result_ret in *.

Ltac unfold_ops :=
  unfold call, broadcast, pool, with_name, broadcast_node_to_edges,
    pool_edges_to_node, broadcast_context_to_nodes, broadcast_context_to_edges,
    pool_nodes_to_context, pool_edges_to_context, gather_first_node,
    _broadcast_context, _pool_to_context, values_map, pool_segments,
    node_segments, context_segments, incident_node_set,
    node_set_features, edge_set_features, features, sizes in *.

Ltac destruct_call c :=
  destruct c as [e tag|e tag rt'|n|e|n rt'|e rt'|tag e n|tag e n rt'|n].

Section FeatureArguments.
Context {T : Type}.
Implicit Types (reg : Registry T) (g : GraphTensor T) (c : OpCall).
Implicit Types (m : Fields T) (fv : option (Field T)) (fn : option FieldName).


Lemma resolve_value_value m v : resolve_value m (Some v) None = Ok v.
Proof. done. Qed.

Lemma resolve_value_name m name :
  resolve_value m None (Some name) = getitem m name.
Proof. done. Qed.



Lemma call_by_name reg g c m name v :
  values_map g c = Ok m → Dict.get m name = Some v →
  call reg g c None (Some name) = call reg g c (Some v) None.
Proof.
  intros Hm Hv.
  assert (resolve_value m None (Some name) = Ok v) as Hr.
  { rewrite resolve_value_name. unfold getitem. by rewrite Hv. }
  destruct_call c; unfold_ops; unfold_result;
    repeat (case_match; simplify_eq/=; rewrite ?Hr in *; try done).
Qed.

Lemma pooling_call reg g c rt m fv fn v :
  is_pooling c = Some rt → rank g = 0%nat →
  values_map g c = Ok m → resolve_value m fv fn = Ok v →
  call reg g c fv fn
  = match Dict.get reg rt with
    | None => Raise (ValueError (unknown_reduce_type_msg rt))
    | Some op => '(ids, n) ← pool_segments g c; op v ids n
    end.
Proof.
  intros Hp Hrank Hm Hr.
  destruct_call c; simplify_eq/=; unfold_ops; unfold_result;
    unfold _validate_names_and_tag, check_scalar_graph_tensor, _resolve_reduce_op,
      node_set_name, adjacency_getitem in *;
    rewrite ?Hrank; simpl;
    repeat (case_match; simplify_eq/=; rewrite ?Hr in *; try done).
Qed.

Lemma pool_segments_not_ValueError g c :
  ¬ is_ValueError (pool_segments (T:=T) g c).
Proof.
  destruct_call c; unfold_ops; unfold_result;
    unfold node_set_name, adjacency_getitem, getitem, row_lengths_to_row_ids;
    repeat (case_match; simplify_eq/=; try done); auto.
Qed.
End FeatureArguments.

Lemma resolve_value_not_unknown {T} (m : Fields T) fv fn reduce_type :
  resolve_value m fv fn ≠ Raise (ValueError (unknown_reduce_type_msg reduce_type)).
Proof.
  unfold resolve_value, getitem.
  destruct (Bool.eqb _ _); [by intros [=]|].
  destruct fv; [done|]. destruct fn as [name|]; [|done].
  by destruct (Dict.get m name).
Qed.

(** C3 (amended): on a scalar graph tensor, [pool_edges_to_node] raises the
    [ValueError] naming the unknown reduce type whenever the reduce type is
    not a key of the registry, whatever its other arguments are;
    [pool_nodes_to_context] and [pool_edges_to_context] resolve the feature
    first and raise that error when the named set exists and the feature
    arguments resolve.  When the reduce type is a key, the registered
    operation is the one applied, to the resolved feature and the segment
    ids of the call, and no pooling operation raises the error naming the
    reduce type unless the registered operation itself does. *)
Theorem reduce_type_resolution_amended {T : Type} (reg : Registry T)
    (g : GraphTensor T) (reduce_type : string) :
  rank g = 0%nat →
  let unknown : result (Field T) :=
    Raise (ValueError (unknown_reduce_type_msg reduce_type)) in
  (_resolve_reduce_op reg reduce_type
     = Raise (ValueError (unknown_reduce_type_msg reduce_type))
   ↔ Dict.get reg reduce_type = None)
  ∧ (Dict.get reg reduce_type = None →
     (∀ e tag fv fn, pool_edges_to_node reg g e tag reduce_type fv fn = unknown)
     ∧ (∀ n ns fv fn v,
          Dict.get (node_sets g) n = Some ns →
          resolve_value (node_features ns) fv fn = Ok v →
          pool_nodes_to_context reg g n reduce_type fv fn = unknown)
     ∧ (∀ e es fv fn v,
          Dict.get (edge_sets g) e = Some es →
          resolve_value (edge_features es) fv fn = Ok v →
          pool_edges_to_context reg g e reduce_type fv fn = unknown))
  ∧ (∀ op, Dict.get reg reduce_type = Some op →
     (∀ e tag es name indices ns fv fn v,
        Dict.get (edge_sets g) e = Some es →
        Dict.get (adjacency es) tag = Some (name, indices) →
        Dict.get (node_sets g) name = Some ns →
        resolve_value (edge_features es) fv fn = Ok v →
        pool_edges_to_node reg g e tag reduce_type fv fn
        = op v indices (total_node_count ns))
     ∧ (∀ n ns fv fn v,
          Dict.get (node_sets g) n = Some ns →
          resolve_value (node_features ns) fv fn = Ok v →
          pool_nodes_to_context reg g n reduce_type fv fn
          = (row_ids ← row_lengths_to_row_ids (node_sizes ns);
             op v row_ids (outer_dimension_size (node_sizes ns))))
     ∧ (∀ e es fv fn v,
          Dict.get (edge_sets g) e = Some es →
          resolve_value (edge_features es) fv fn = Ok v →
          pool_edges_to_context reg g e reduce_type fv fn
          = (row_ids ← row_lengths_to_row_ids (edge_sizes es);
             op v row_ids (outer_dimension_size (edge_sizes es))))
     ∧ ((∀ v ids n, op v ids n ≠ unknown) →
        (∀ e tag fv fn, pool_edges_to_node reg g e tag reduce_type fv fn ≠ unknown)
        ∧ (∀ n fv fn, pool_nodes_to_context reg g n reduce_type fv fn ≠ unknown)
        ∧ (∀ e fv fn, pool_edges_to_context reg g e reduce_type fv fn ≠ unknown))).
Proof.
  intros Hrank unknown. subst unknown.
  assert (∀ name, check_scalar_graph_tensor g name = Ok ()) as Hcheck.
  { intros name. unfold check_scalar_graph_tensor. by rewrite decide_True. }
  split; [|split].
  - unfold _resolve_reduce_op. destruct (Dict.get reg reduce_type); naive_solver.
  - intros Hnone. split; [|split].
    + intros e tag fv fn. unfold pool_edges_to_node, _resolve_reduce_op.
      rewrite Hcheck. simpl. by rewrite Hnone.
    + intros n ns fv fn v Hns Hv.
      unfold pool_nodes_to_context, _pool_to_context, _resolve_reduce_op, getitem.
      rewrite Hns. simpl. rewrite Hcheck. simpl. rewrite Hv. simpl. by rewrite Hnone.
    + intros e es fv fn v Hes Hv.
      unfold pool_edges_to_context, _pool_to_context, _resolve_reduce_op, getitem.
      rewrite Hes. simpl. rewrite Hcheck. simpl. rewrite Hv. simpl. by rewrite Hnone.
  - intros op Hop. split; [|split; [|split]].
    + intros e tag es name indices ns fv fn v Hes Hadj Hns Hv.
      unfold pool_edges_to_node, _resolve_reduce_op, getitem, node_set_name,
        adjacency_getitem.
      rewrite Hcheck. simpl. rewrite Hop. simpl. rewrite Hes. simpl.
      rewrite Hv. simpl. rewrite Hadj. simpl. by rewrite Hns.
    + intros n ns fv fn v Hns Hv.
      unfold pool_nodes_to_context, _pool_to_context, _resolve_reduce_op, getitem.
      rewrite Hns. simpl. rewrite Hcheck. simpl. rewrite Hv. simpl. by rewrite Hop.
    + intros e es fv fn v Hes Hv.
      unfold pool_edges_to_context, _pool_to_context, _resolve_reduce_op, getitem.
      rewrite Hes. simpl. rewrite Hcheck. simpl. rewrite Hv. simpl. by rewrite Hop.
    + intros Hops. split; [|split].
      * intros e tag fv fn.
        unfold pool_edges_to_node, _resolve_reduce_op, getitem, node_set_name,
          adjacency_getitem, mbind, result_mbind, result_bind.
        rewrite Hcheck, Hop.
        destruct (Dict.get (edge_sets g) e) as [es|]; [|done].
        pose proof (resolve_value_not_unknown (edge_features es) fv fn reduce_type).
        destruct (resolve_value (edge_features es) fv fn) as [v|]; [|done].
        destruct (Dict.get (adjacency es) tag) as [[name indices]|]; [|done].
        destruct (Dict.get (node_sets g) name) as [ns|]; [|done].
        apply Hops.
      * intros n fv fn.
        unfold pool_nodes_to_context, _pool_to_context, _resolve_reduce_op, getitem,
          row_lengths_to_row_ids, mbind, result_mbind, result_bind.
        destruct (Dict.get (node_sets g) n) as [ns|]; [|done].
        rewrite Hcheck. cbn [features sizes].
        pose proof (resolve_value_not_unknown (node_features ns) fv fn reduce_type).
        destruct (resolve_value (node_features ns) fv fn) as [v|]; [|done].
        rewrite Hop. case_decide; [apply Hops|done].
      * intros e fv fn.
        unfold pool_edges_to_context, _pool_to_context, _resolve_reduce_op, getitem,
          row_lengths_to_row_ids, mbind, result_mbind, result_bind.
        destruct (Dict.get (edge_sets g) e) as [es|]; [|done].
        rewrite Hcheck. cbn [features sizes].
        pose proof (resolve_value_not_unknown (edge_features es) fv fn reduce_type).
        destruct (resolve_value (edge_features es) fv fn) as [v|]; [|done].
        rewrite Hop. case_decide; [apply Hops|done].
Qed.

Lemma reduce_type_resolution_amended_witness :
  pool_edges_to_node (T:=Z) _REGISTERED_REDUCE_OPS example_graph "no such set" TARGET
    "median" None None
  = Raise (ValueError (unknown_reduce_type_msg "median"))
  ∧ pool_nodes_to_context (T:=Z) _REGISTERED_REDUCE_OPS example_graph "paper" "median"
      None (Some "hidden")
    = Raise (ValueError (unknown_reduce_type_msg "median"))
  ∧ pool_nodes_to_context (T:=Z) _REGISTERED_REDUCE_OPS example_graph "paper" "max"
      None (Some "hidden")
    = unsorted_segment_max (Dense [10; 20; 30]) [0; 0; 1] 2.
Proof.
  pose (ns := {| node_features := [("hidden", Dense [10; 20; 30]);
                                   ("words", Ragged [[1; 2]; []; [3]])];
                 node_sizes := [2; 1];
                 node_spec_total_size := None |} : NodeSet Z).
  split; [|split].
  - destruct (reduce_type_resolution_amended (T:=Z) _REGISTERED_REDUCE_OPS
                example_graph "median" eq_refl) as (_ & Hunknown & _).
    destruct (Hunknown eq_refl) as (Hnode & _ & _). apply Hnode.
  - destruct (reduce_type_resolution_amended (T:=Z) _REGISTERED_REDUCE_OPS
                example_graph "median" eq_refl) as (_ & Hunknown & _).
    destruct (Hunknown eq_refl) as (_ & Hcontext & _).
    exact (Hcontext "paper" ns None (Some "hidden") (Dense [10; 20; 30])
             eq_refl eq_refl).
  - destruct (reduce_type_resolution_amended (T:=Z) _REGISTERED_REDUCE_OPS
                example_graph "max" eq_refl) as (_ & _ & Hknown).
    destruct (Hknown unsorted_segment_max eq_refl) as (_ & Hcontext & _).
    exact (Hcontext "paper" ns None (Some "hidden") (Dense [10; 20; 30])
             eq_refl eq_refl).
Defined.

Lemma reduce_type_resolution_counterexample :
  rank example_graph = 0%nat
  ∧ Dict.get (_REGISTERED_REDUCE_OPS (T:=Z)) "median" = None
  ∧ pool_nodes_to_context (T:=Z) _REGISTERED_REDUCE_OPS example_graph "paper" "median"
      None None
    = Raise (ValueError "One of feature name of feature value must be specified.")
  ∧ pool_nodes_to_context (T:=Z) _REGISTERED_REDUCE_OPS example_graph "paper" "median"
      None None
    ≠ Raise (ValueError (unknown_reduce_type_msg "median"))
  ∧ pool_edges_to_context (T:=Z) _REGISTERED_REDUCE_OPS example_graph "no such set"
      "median" None (Some "weight")
    = Raise (KeyError (Name "no such set")).
Proof. repeat split. by intros [=]. Qed.




(** ** Gathering rows and the first-node readout *)

Section Gather.
Context {A : Type}.
Implicit Types (rows rs : list A) (indices : list Z).

Lemma lookup_index_Ok rows k r : lookup_index rows k = Ok r ↔ row_at rows k r.
Proof.
  unfold lookup_index, row_at. case_decide.
  - destruct (rows !! Z.to_nat k) as [r'|].
    + split; [by intros [= ->] | by intros [_ [= ->]]].
    + split; [done | by intros [_ ?]].
  - split; [done | by intros [? _]].
Qed.

Lemma gather_rows_Ok rows indices rs :
  gather_rows rows indices = Ok rs ↔ Forall2 (row_at rows) indices rs.
Proof.
  revert rs. induction indices as [|k indices IH]; intros rs; simpl.
  - split; [intros [= <-]; constructor | by intros ->%Forall2_nil_inv_l].
  - unfold mbind, result_mbind, result_bind. split.
    + destruct (lookup_index rows k) as [r|] eqn:Hk; [|done].
      destruct (gather_rows rows indices) as [rs'|] eqn:Hrest; [|done].
      intros [= <-]. constructor; [by apply lookup_index_Ok | by apply IH].
    + intros (r & rs' & Hk & Hrest & ->)%Forall2_cons_inv_l.
      apply lookup_index_Ok in Hk. apply IH in Hrest. by rewrite Hk, Hrest.
Qed.

Lemma gather_rows_in_range rows indices :
  Forall (λ k, 0 ≤ k < Z.of_nat (length rows)) indices →
  ∃ rs, gather_rows rows indices = Ok rs.
Proof.
  induction 1 as [|k indices [Hk0 Hk] _ [rs IH]]; [by eexists|].
  destruct (lookup_lt_is_Some_2 rows (Z.to_nat k)) as [r Hr]; [lia|].
  exists (r :: rs). apply gather_rows_Ok. constructor; [done|].
  by apply gather_rows_Ok.
Qed.
End Gather.

Lemma cumsum_exclusive_from_length acc sizes :
  length (cumsum_exclusive_from acc sizes) = length sizes.
Proof. revert acc. induction sizes; intros; simpl; [done|]. by rewrite IHsizes. Qed.

Lemma cumsum_exclusive_from_lookup acc sizes i :
  (i < length sizes)%nat →
  cumsum_exclusive_from acc sizes !! i = Some (acc + sum_list_Z (take i sizes)).
Proof.
  revert acc i. induction sizes as [|x sizes IH]; intros acc i Hi; simpl in *; [lia|].
  destruct i as [|i]; simpl.
  - f_equal. unfold sum_list_Z. simpl. lia.
  - rewrite IH by lia. f_equal. unfold sum_list_Z. simpl. lia.
Qed.

Lemma cumsum_exclusive_from_bounds acc sizes :
  Forall (λ s, 0 < s) sizes →
  Forall (λ k, acc ≤ k < acc + sum_list_Z sizes) (cumsum_exclusive_from acc sizes).
Proof.
  intros Hpos. revert acc.
  induction Hpos as [|x sizes Hx Hpos IH]; intros acc; simpl; [constructor|].
  assert (0 ≤ sum_list_Z sizes) as Hsum.
  { clear IH. induction Hpos; unfold sum_list_Z in *; simpl; lia. }
  unfold sum_list_Z in *. simpl. constructor; [lia|].
  eapply Forall_impl; [apply IH|]. simpl. intros k ?. lia.
Qed.

Lemma row_at_fmap {A B} (f : A → B) (rows : list A) k r :
  row_at rows k r → row_at (f <$> rows) k (f r).
Proof. intros [? Hr]. split; [done|]. by rewrite list_lookup_fmap, Hr. Qed.

Lemma tf_gather_rows {T} (v out : Field T) indices :
  tf_gather v indices = Ok out →
  is_dense_tensor out = is_dense_tensor v
  ∧ is_ragged_tensor out = is_ragged_tensor v
  ∧ Forall2 (row_at (field_rows v)) indices (field_rows out).
Proof.
  destruct v as [rows|rows|]; simpl; [| |done].
  - destruct (gather_rows rows indices) as [rs|] eqn:Hg; simpl; [|done].
    intros [= <-]. do 2 (split; [done|]). simpl.
    apply gather_rows_Ok in Hg. apply Forall2_fmap_r.
    eapply Forall2_impl; [done|]. intros k r. apply row_at_fmap.
  - destruct (gather_rows rows indices) as [rs|] eqn:Hg; simpl; [|done].
    intros [= <-]. do 2 (split; [done|]). simpl.
    apply gather_rows_Ok in Hg. apply Forall2_fmap_r.
    eapply Forall2_impl; [done|]. intros k r. apply row_at_fmap.
Qed.

Lemma tf_gather_in_range {T} (v : Field T) indices :
  is_supported v = true →
  Forall (λ k, 0 ≤ k < Z.of_nat (outer_size v)) indices →
  ∃ out, tf_gather v indices = Ok out.
Proof.
  destruct v as [rows|rows|]; simpl; [| |done]; intros _ Hr;
    destruct (gather_rows_in_range rows indices Hr) as [rs ->]; by eexists.
Qed.

(** C6: on a scalar graph tensor whose named node set has a strictly
    positive size in every component, [gather_first_node] returns one row
    per component, the row of the feature at that component's first node,
    whose index is the exclusive cumulative sum of the component sizes; when
    some component has no (or a non-positive number of) nodes, the operation
    raises an error instead of returning a value. *)
Theorem gather_first_node_spec {T : Type} (g : GraphTensor T)
    (name : NodeSetName) (ns : NodeSet T)
    (fv : option (Field T)) (fn : option FieldName) (v : Field T) :
  rank g = 0%nat →
  Dict.get (node_sets g) name = Some ns →
  resolve_value (node_features ns) fv fn = Ok v →
  (Forall (λ s, 0 < s) (node_sizes ns) →
   is_supported v = true → total_size ns ≤ Z.of_nat (outer_size v) →
   ∃ out, gather_first_node g name fv fn = Ok out
     ∧ is_dense_tensor out = is_dense_tensor v
     ∧ is_ragged_tensor out = is_ragged_tensor v
     ∧ outer_size out = length (node_sizes ns)
     ∧ ∀ i, (i < length (node_sizes ns))%nat →
         cumsum_exclusive (node_sizes ns) !! i
           = Some (sum_list_Z (take i (node_sizes ns)))
         ∧ is_Some (field_rows out !! i)
         ∧ field_rows out !! i
           = field_rows v !! Z.to_nat (sum_list_Z (take i (node_sizes ns))))
  ∧ (¬ Forall (λ s, 0 < s) (node_sizes ns) →
     gather_first_node g name fv fn
     = Raise (InvalidArgumentError (no_nodes_msg name))).
Proof.
  intros Hrank Hns Hv.
  assert (gather_first_node g name fv fn
    = (_ ← assert_positive (node_sizes ns) (no_nodes_msg name);
       tf_gather v (cumsum_exclusive (node_sizes ns)))) as Hcall.
  { unfold gather_first_node, check_scalar_graph_tensor, getitem.
    rewrite Hrank. simpl. rewrite Hns. simpl. by rewrite Hv. }
  rewrite Hcall. unfold assert_positive.
  split.
  - intros Hpos Hsup Hsize. rewrite decide_True by done. simpl.
    pose proof (cumsum_exclusive_from_bounds 0 _ Hpos) as Hb.
    destruct (tf_gather_in_range v (cumsum_exclusive (node_sizes ns)) Hsup)
      as [out Hout].
    { eapply Forall_impl; [exact Hb|]. unfold total_size in Hsize.
      simpl. intros k ?. lia. }
    exists out. split; [done|].
    destruct (tf_gather_rows _ _ _ Hout) as (Hd & Hr & Hrows).
    do 2 (split; [done|]).
    pose proof (Forall2_length _ _ _ Hrows) as Hlen.
    unfold cumsum_exclusive in Hlen. rewrite cumsum_exclusive_from_length in Hlen.
    split.
    { rewrite Hlen. destruct out; simpl; by rewrite ?length_fmap. }
    intros i Hi.
    pose proof (cumsum_exclusive_from_lookup 0 _ i Hi) as Hstart.
    rewrite Z.add_0_l in Hstart. split; [done|].
    destruct (lookup_lt_is_Some_2 (field_rows out) i) as [r Hri]; [lia|].
    split; [by eexists|].
    destruct (Forall2_lookup_lr _ _ _ _ _ _ Hrows Hstart Hri) as [_ Hrow].
    by rewrite Hri, Hrow.
  - intros Hneg. by rewrite decide_False.
Qed.

Lemma gather_first_node_spec_witness :
  (∃ out, gather_first_node example_graph "paper" None (Some "hidden") = Ok out
     ∧ field_rows out !! 1%nat = Some (DenseRow 30))
  ∧ gather_first_node example_graph_empty_component "paper" None (Some "hidden")
    = Raise (InvalidArgumentError (no_nodes_msg "paper")).
Proof.
  split.
  - destruct (gather_first_node_spec example_graph "paper"
                {| node_features := [("hidden", Dense [10; 20; 30]);
                                     ("words", Ragged [[1; 2]; []; [3]])];
                   node_sizes := [2; 1];
                   node_spec_total_size := None |}
                None (Some "hidden") (Dense [10; 20; 30])
                eq_refl eq_refl eq_refl) as [Hpos _].
    destruct Hpos as (out & Hout & _ & _ & _ & Hrows).
    + repeat constructor.
    + reflexivity.
    + vm_compute. by intros [=].
    + exists out. split; [done|].
      destruct (Hrows 1%nat) as (_ & _ & ->); [simpl; lia | reflexivity].
  - apply (gather_first_node_spec example_graph_empty_component "paper"
             {| node_features := [("hidden", Dense [10; 20; 30])];
                node_sizes := [3; 0];
                node_spec_total_size := None |}
             None (Some "hidden") (Dense [10; 20; 30])
             eq_refl eq_refl eq_refl).
    intros Hpos. apply Forall_cons in Hpos as [_ Hpos].
    apply Forall_cons in Hpos as [Hzero _]. lia.
Defined.


(** ** Broadcast followed by sum pooling *)

Section Segments.
Context {A : Type}.
Implicit Types (rows rs : list A) (indices : list Z).

Lemma segment_members_cons k indices r rs s :
  segment_members (k :: indices) (r :: rs) s
  = if decide (k = s) then r :: segment_members indices rs s
    else segment_members indices rs s.
Proof.
  unfold segment_members. simpl. rewrite filter_cons. simpl.
  by destruct (decide (k = s)).
Qed.

Lemma segment_members_not_elem_of indices rs s :
  s ∉ indices → segment_members indices rs s = [].
Proof.
  revert rs. induction indices as [|k indices IH]; intros rs Hs; [done|].
  destruct rs as [|r rs]; [done|].
  apply not_elem_of_cons in Hs as [Hne Hs].
  rewrite segment_members_cons, decide_False by done. by apply IH.
Qed.

Lemma segment_members_unique rows indices rs s r :
  Forall2 (row_at rows) indices rs → NoDup indices → s ∈ indices →
  rows !! Z.to_nat s = Some r →
  segment_members indices rs s = [r].
Proof.
  intros Hrows. induction Hrows as [|k x indices rs [_ Hk] _ IH]; intros Hnd Hs Hr.
  - by apply elem_of_nil in Hs.
  - apply NoDup_cons in Hnd as [Hk' Hnd]. rewrite segment_members_cons.
    destruct (decide (k = s)) as [->|Hne].
    + rewrite segment_members_not_elem_of by done. congruence.
    + apply elem_of_cons in Hs as [->|Hs]; [done|]. by apply IH.
Qed.

Lemma segments_roundtrip (f : list A → A) rows indices rs :
  (∀ r, f [r] = r) →
  indices ≡ₚ seqZ 0 (Z.of_nat (length rows)) →
  Forall2 (row_at rows) indices rs →
  (λ s, f (segment_members indices rs (Z.of_nat s))) <$> seq 0 (length rows) = rows.
Proof.
  intros Hf Hperm Hrows. apply list_eq. intros i.
  rewrite list_lookup_fmap.
  destruct (decide (i < length rows)%nat) as [Hi|Hi].
  - rewrite lookup_seq_lt by done. simpl.
    destruct (lookup_lt_is_Some_2 rows i Hi) as [r Hr]. rewrite Hr. f_equal.
    rewrite (segment_members_unique rows indices rs (Z.of_nat i) r); [done..| | |].
    + rewrite Hperm. apply NoDup_seqZ.
    + rewrite Hperm. apply elem_of_seqZ. lia.
    + by rewrite Nat2Z.id.
  - rewrite lookup_seq_ge by lia. simpl. symmetry. apply lookup_ge_None. lia.
Qed.

Lemma check_segment_ids_perm indices rs n :
  length indices = length rs → 0 ≤ n → indices ≡ₚ seqZ 0 n →
  check_segment_ids (length rs) indices n = Ok ().
Proof.
  intros Hlen Hn Hperm. unfold check_segment_ids.
  rewrite !decide_True; [done| |done..].
  apply Forall_forall. intros k Hk. rewrite Hperm in Hk.
  apply elem_of_seqZ in Hk. lia.
Qed.
End Segments.

Section RoundTrip.
Context {T : Type} `{Dtype T}.
Hypothesis add_zero_l : ∀ x : T, add zero x = x.

Lemma ragged_row_sum_single (r : list T) :
  (λ p, foldl add zero (omap (λ r' : list T, r' !! p) [r]))
    <$> seq 0 (max_list (length <$> [r])) = r.
Proof using add_zero_l.
  simpl. rewrite Nat.max_0_r. apply list_eq. intros p.
  rewrite list_lookup_fmap.
  destruct (decide (p < length r)%nat) as [Hp|Hp].
  - rewrite lookup_seq_lt by done. simpl.
    destruct (lookup_lt_is_Some_2 r p Hp) as [x Hx]. rewrite Hx. simpl.
    by rewrite add_zero_l.
  - rewrite lookup_seq_ge by lia. simpl. symmetry. apply lookup_ge_None. lia.
Qed.

Lemma gather_then_sum (v b : Field T) indices :
  is_supported v = true →
  indices ≡ₚ seqZ 0 (Z.of_nat (outer_size v)) →
  tf_gather v indices = Ok b →
  unsorted_segment_sum b indices (Z.of_nat (outer_size v)) = Ok v.
Proof using add_zero_l.
  intros Hsup Hperm Hb. unfold unsorted_segment_sum, unsorted_segment.
  destruct v as [rows|rows|]; [| |done]; simpl in *.
  - destruct (gather_rows rows indices) as [rs|] eqn:Hg; simplify_eq/=.
    apply gather_rows_Ok in Hg.
    rewrite check_segment_ids_perm; [simpl|by eapply Forall2_length|lia|done].
    unfold segment_reduce. rewrite Nat2Z.id.
    by rewrite (segments_roundtrip (foldl add zero) rows indices rs).
  - destruct (gather_rows rows indices) as [rs|] eqn:Hg; simplify_eq/=.
    apply gather_rows_Ok in Hg.
    rewrite check_segment_ids_perm; [simpl|by eapply Forall2_length|lia|done].
    unfold ragged_segment_reduce. rewrite Nat2Z.id.
    by rewrite (segments_roundtrip
      (λ ms, (λ p, foldl add zero (omap (λ r' : list T, r' !! p) ms))
               <$> seq 0 (max_list (length <$> ms))) rows indices rs
      ragged_row_sum_single).
Qed.
End RoundTrip.

(** C1: on a scalar graph tensor, when the incidence of the edge set at the
    given tag is a bijection between the edges and the nodes of the incident
    node set (the node index array is a permutation of all node indices),
    pooling with reduce type sum the result of broadcasting a node feature
    to the edges returns that node feature.  The only fact about the
    element type that is used is that zero is a left identity of addition. *)
Theorem broadcast_pool_sum_roundtrip {T : Type} `{Dtype T} (reg : Registry T)
    (g : GraphTensor T) (e : EdgeSetName) (tag : IncidentNodeTag)
    (es : EdgeSet T) (name : NodeSetName) (indices : list Z) (ns : NodeSet T)
    (v : Field T) :
  (∀ x : T, add zero x = x) →
  Dict.get reg "sum" = Some unsorted_segment_sum →
  rank g = 0%nat →
  Dict.get (edge_sets g) e = Some es →
  Dict.get (adjacency es) tag = Some (name, indices) →
  Dict.get (node_sets g) name = Some ns →
  indices ≡ₚ seqZ 0 (total_node_count ns) →
  is_supported v = true →
  Z.of_nat (outer_size v) = total_node_count ns →
  ∃ b, broadcast_node_to_edges g e tag (Some v) None = Ok b
     ∧ pool_edges_to_node reg g e tag "sum" (Some b) None = Ok v.
Proof.
  intros Hadd Hsum Hrank Hes Hadj Hns Hperm Hsup Hsize.
  assert (broadcast_node_to_edges g e tag (Some v) None = tf_gather v indices)
    as Hbroadcast.
  { unfold broadcast_node_to_edges, check_scalar_graph_tensor, getitem,
      node_set_name, adjacency_getitem.
    rewrite Hrank; simpl. rewrite Hes; simpl. rewrite Hadj; simpl.
    by rewrite Hns. }
  assert (∀ b, pool_edges_to_node reg g e tag "sum" (Some b) None
               = unsorted_segment_sum b indices (total_node_count ns)) as Hpool.
  { intros b. unfold pool_edges_to_node, check_scalar_graph_tensor,
      _resolve_reduce_op, getitem, node_set_name, adjacency_getitem.
    rewrite Hrank; simpl. rewrite Hsum; simpl. rewrite Hes; simpl.
    rewrite Hadj; simpl. by rewrite Hns. }
  rewrite <- Hsize in Hperm.
  destruct (tf_gather_in_range v indices Hsup) as [b Hb].
  { apply Forall_forall. intros k Hk. rewrite Hperm in Hk.
    apply elem_of_seqZ in Hk. lia. }
  exists b. split; [by rewrite Hbroadcast|].
  rewrite Hpool, <- Hsize. by apply gather_then_sum.
Qed.

Lemma broadcast_pool_sum_roundtrip_witness :
  ∃ b, broadcast_node_to_edges example_graph "cites" SOURCE
         (Some (Dense [10; 20; 30])) None = Ok b
     ∧ pool_edges_to_node _REGISTERED_REDUCE_OPS example_graph "cites" SOURCE "sum"
         (Some b) None = Ok (Dense [10; 20; 30]).
Proof.
  apply (broadcast_pool_sum_roundtrip (T:=Z) _REGISTERED_REDUCE_OPS example_graph
           "cites" SOURCE
           {| edge_features := [("weight", Dense [1; 2; 3])];
              edge_sizes := [2; 1];
              edge_spec_total_size := Some 3;
              adjacency := [(SOURCE, ("paper", [2; 0; 1]));
                            (TARGET, ("paper", [0; 0; 2]))] |}
           "paper" [2; 0; 1]
           {| node_features := [("hidden", Dense [10; 20; 30]);
                                ("words", Ragged [[1; 2]; []; [3]])];
              node_sizes := [2; 1];
              node_spec_total_size := None |}
           (Dense [10; 20; 30])); try reflexivity.
  change (seqZ 0 _) with [0; 1; 2].
  apply (Permutation_cons_append [0; 1] 2).
Defined.


(** ** Shuffling *)

Lemma argsort_Permutation (values : list Z) :
  argsort values ≡ₚ Z.of_nat <$> seq 0 (length values).
Proof.
  unfold argsort. apply fmap_Permutation.
  rewrite merge_sort_Permutation. by rewrite snd_zip by (rewrite length_seq; lia).
Qed.

Section GatherPermutation.
Context {A : Type}.
Implicit Types (rows rs : list A) (indices : list Z).

Lemma gather_all_in_order rows rs :
  Forall2 (row_at rows) (Z.of_nat <$> seq 0 (length rows)) rs → rs = rows.
Proof.
  intros Hrows. pose proof (Forall2_length _ _ _ Hrows) as Hlen.
  rewrite length_fmap, length_seq in Hlen.
  apply list_eq. intros i.
  destruct (decide (i < length rows)%nat) as [Hi|Hi].
  - destruct (lookup_lt_is_Some_2 rs i) as [r Hr]; [lia|].
    assert ((Z.of_nat <$> seq 0 (length rows)) !! i = Some (Z.of_nat i)) as Hk.
    { by rewrite list_lookup_fmap, lookup_seq_lt. }
    destruct (Forall2_lookup_lr _ _ _ _ _ _ Hrows Hk Hr) as [_ Hrow].
    rewrite Nat2Z.id in Hrow. congruence.
  - rewrite !lookup_ge_None_2; [done|lia..].
Qed.

Lemma gather_rows_Permutation rows indices rs :
  indices ≡ₚ Z.of_nat <$> seq 0 (length rows) →
  gather_rows rows indices = Ok rs → rs ≡ₚ rows.
Proof.
  intros Hperm Hrs%gather_rows_Ok.
  destruct (Permutation.Permutation_Forall2 Hperm Hrs) as (rs' & Hrs' & Hall).
  apply gather_all_in_order in Hall. by subst.
Qed.

Lemma gather_rows_all rows indices :
  indices ≡ₚ Z.of_nat <$> seq 0 (length rows) →
  ∃ rs, gather_rows rows indices = Ok rs ∧ rs ≡ₚ rows.
Proof.
  intros Hperm. destruct (gather_rows_in_range rows indices) as [rs Hrs].
  { apply Forall_forall. intros k Hk. rewrite Hperm in Hk.
    apply list_elem_of_fmap in Hk as (i & -> & Hi). apply elem_of_seq in Hi. lia. }
  exists rs. split; [done|]. by apply gather_rows_Permutation with indices.
Qed.

Lemma split_rows_lengths (row_lengths : list nat) (values : list A) :
  sum_list row_lengths = length values →
  length <$> split_rows row_lengths values = row_lengths
  ∧ mjoin (split_rows row_lengths values) = values.
Proof.
  revert values. induction row_lengths as [|n row_lengths IH]; intros values Hsum.
  - simpl in *. by destruct values.
  - simpl in Hsum. destruct (IH (drop n values)) as [IH1 IH2].
    { rewrite length_drop. lia. }
    change (split_rows (n :: row_lengths) values)
      with (take n values :: split_rows row_lengths (drop n values)).
    rewrite fmap_cons, IH1.
    change (mjoin (take n values :: split_rows row_lengths (drop n values)))
      with (take n values ++ mjoin (split_rows row_lengths (drop n values))).
    rewrite IH2, length_take, take_drop.
    split; [|done]. f_equal. lia.
Qed.

Lemma rowids_length_aux (f : nat → Z) (rows : list (list A)) :
  length (mjoin (imap (λ i (r : list A), replicate (length r) (f i)) rows))
  = length (mjoin rows).
Proof.
  revert f. induction rows as [|r rows IH]; intros f; [done|].
  rewrite imap_cons.
  change (length (replicate (length r) (f 0%nat)
                  ++ mjoin (imap (λ i (r : list A), replicate (length r) (f (S i))) rows))
          = length (r ++ mjoin rows)).
  rewrite !length_app, length_replicate. f_equal. apply (IH (λ i, f (S i))).
Qed.

Lemma value_rowids_length (rows : list (list A)) :
  length (value_rowids rows) = length (mjoin rows).
Proof. apply rowids_length_aux. Qed.
End GatherPermutation.

Section DictRelated.
Context {V V' : Type}.
Implicit Types (d : list (string * V)) (k : string).

Lemma dict_get_related (R : V → V' → Prop) d (d' : list (string * V')) k x :
  Forall2 (λ p p', p'.1 = p.1 ∧ R p.2 p'.2) d d' →
  Dict.get d k = Some x → ∃ x', Dict.get d' k = Some x' ∧ R x x'.
Proof.
  induction 1 as [|[k0 x0] [k0' x0'] d d' [Hk HR] _ IH]; simpl in *; [done|].
  subst k0'. destruct (decide (k0 = k)); [|done].
  intros [= ->]. by exists x0'.
Qed.

Lemma dict_keys_related (R : V → V' → Prop) d (d' : list (string * V')) :
  Forall2 (λ p p', p'.1 = p.1 ∧ R p.2 p'.2) d d' → Dict.keys d' = Dict.keys d.
Proof.
  unfold Dict.keys.
  induction 1 as [|[k0 x0] [k0' x0'] d d' [Hk HR] _ IH]; csimpl in *; [done|].
  by rewrite Hk, IH.
Qed.

Lemma dict_get_fmap_entries (F : string * V → string * V') (h : string → V → V') d k :
  (∀ p, F p = (p.1, h p.1 p.2)) →
  Dict.get (F <$> d) k = h k <$> Dict.get d k.
Proof.
  intros HF. induction d as [|[k0 x0] d IH]; csimpl; [done|].
  rewrite HF. simpl. destruct (decide (k0 = k)) as [->|]; [done|]. apply IH.
Qed.

Lemma dict_keys_fmap_entries (F : string * V → string * V') d :
  (∀ p, (F p).1 = p.1) → Dict.keys (F <$> d) = Dict.keys d.
Proof.
  intros HF. unfold Dict.keys. rewrite <- list_fmap_compose.
  apply list_fmap_ext. intros _ p _. apply HF.
Qed.
End DictRelated.

Section ShuffleFacts.
Context {T G : Type} `{RandomShuffle G}.
Implicit Types (fs : Fields T) (seed : option Z) (g : G) (names : list string).

Lemma shuffle_field_supported fs seed name g v :
  Dict.get fs name = Some v → is_supported v = true →
  ∃ v' g', _shuffle fs seed name g = Ok (v', g') ∧ field_shuffled v v'.
Proof.
  intros Hv Hsup. unfold _shuffle, getitem. rewrite Hv. simpl.
  destruct v as [rows|rows|]; [| |done].
  - pose proof (random_shuffle_perm seed rows g) as Hperm.
    destruct (random_shuffle seed rows g) as [rows' g']. by exists (Dense rows'), g'.
  - pose proof (random_shuffle_perm seed (value_rowids rows) g) as Hperm.
    destruct (random_shuffle seed (value_rowids rows) g) as [shuffled g'].
    simpl in Hperm.
    destruct (gather_rows_all (mjoin rows) (argsort shuffled))
      as (new_values & -> & Hnew).
    { rewrite argsort_Permutation.
      by rewrite (Permutation_length Hperm), value_rowids_length. }
    simpl. unfold with_values.
    rewrite decide_True by (by apply Permutation_length).
    simpl. eexists _, g'. split; [done|]. simpl.
    destruct (split_rows_lengths (length <$> rows) new_values) as [-> ->].
    { rewrite <- length_join. symmetry. by apply Permutation_length. }
    done.
Qed.

Lemma shuffle_field_unsupported fs seed name g v :
  Dict.get fs name = Some v → is_supported v = false →
  _shuffle fs seed name g = Raise (ValueError (unsupported_msg name)).
Proof.
  intros Hv Hsup. unfold _shuffle, getitem. rewrite Hv. simpl. by destruct v.
Qed.

Lemma shuffle_names_cons fs seed name names g :
  shuffle_names fs seed (name :: names) g
  = '(v, g1) ← _shuffle fs seed name g;
    '(rest, g2) ← shuffle_names fs seed names g1;
    Ok ((name, v) :: rest, g2).
Proof. done. Qed.

Lemma shuffle_sets_cons name fs (sets : list (string * Fields T)) seed g :
  shuffle_sets ((name, fs) :: sets) seed g
  = '(fs', g1) ← _shuffle_features fs seed g;
    '(rest, g2) ← shuffle_sets sets seed g1;
    Ok ((name, fs') :: rest, g2).
Proof. done. Qed.

Lemma shuffle_names_supported fs seed names g :
  Forall (λ name, is_Some (Dict.get fs name)) names →
  forallb (name_supported fs) names = true →
  ∃ out g', shuffle_names fs seed names g = Ok (out, g')
    ∧ Forall2 (λ name p, p.1 = name
                 ∧ ∃ v, Dict.get fs name = Some v ∧ field_shuffled v p.2) names out.
Proof.
  intros Hnames. revert g.
  induction Hnames as [|name names [v Hv] _ IH]; intros g Hall.
  - by eexists [], g.
  - apply andb_prop in Hall as [Hname Hall].
    unfold name_supported in Hname. rewrite Hv in Hname. simpl in Hname.
    rewrite shuffle_names_cons.
    destruct (shuffle_field_supported fs seed name g v Hv Hname)
      as (v' & g1 & -> & Hshuffled).
    destruct (IH g1 Hall) as (out & g2 & Hrun & Hout). simpl. rewrite Hrun. simpl.
    eexists _, g2. split; [done|]. constructor; [|done]. simpl. eauto.
Qed.

Lemma shuffle_names_unsupported fs seed names g :
  Forall (λ name, is_Some (Dict.get fs name)) names →
  forallb (name_supported fs) names = false →
  is_ValueError (shuffle_names fs seed names g).
Proof.
  intros Hnames. revert g.
  induction Hnames as [|name names [v Hv] _ IH]; intros g Hall; [done|].
  rewrite shuffle_names_cons. simpl in Hall.
  unfold name_supported in Hall at 1. rewrite Hv in Hall. simpl in Hall.
  destruct (is_supported v) eqn:Hsup.
  - destruct (shuffle_field_supported fs seed name g v Hv Hsup)
      as (v' & g1 & -> & _). simpl. specialize (IH g1 Hall).
    by destruct (shuffle_names fs seed names g1) as [[? ?]|[]].
  - by rewrite (shuffle_field_unsupported fs seed name g v Hv Hsup).
Qed.

Lemma keys_present fs : Forall (λ name, is_Some (Dict.get fs name)) (Dict.keys fs).
Proof. apply Forall_forall. intros name. apply dict_elem_of_keys. Qed.

Lemma shuffle_features_supported fs seed g :
  fields_supported fs = true →
  ∃ fs' g', _shuffle_features fs seed g = Ok (fs', g') ∧ fields_shuffled fs fs'.
Proof.
  intros Hsup.
  destruct (shuffle_names_supported fs seed (Dict.keys fs) g (keys_present fs) Hsup)
    as (fs' & g' & Hrun & Hout).
  exists fs', g'. split; [done|]. split.
  - clear Hrun. unfold Dict.keys at 1.
    induction Hout as [|name [name' v'] names out [Hname _] _ IH]; csimpl; [done|].
    simpl in Hname. by rewrite Hname, IH.
  - intros name v Hv. clear Hrun.
    assert (name ∈ Dict.keys fs) as Hin by (apply dict_elem_of_keys; eauto).
    induction Hout as [|name0 [name' v'] names out [Hname (v0 & Hv0 & Hsh)] _ IH];
      simpl in *; [by apply elem_of_nil in Hin|].
    subst name'. destruct (decide (name0 = name)) as [->|Hne].
    + exists v'. split; [done|]. congruence.
    + apply elem_of_cons in Hin as [->|Hin]; [done|]. by apply IH.
Qed.

Lemma shuffle_features_unsupported fs seed g :
  fields_supported fs = false → is_ValueError (_shuffle_features fs seed g).
Proof. apply shuffle_names_unsupported, keys_present. Qed.

Lemma shuffle_sets_supported (sets : list (string * Fields T)) seed g :
  forallb (λ p, fields_supported p.2) sets = true →
  ∃ out g', shuffle_sets sets seed g = Ok (out, g')
    ∧ Forall2 (λ p p', p'.1 = p.1 ∧ fields_shuffled p.2 p'.2) sets out.
Proof.
  revert g. induction sets as [|[name fs] sets IH]; intros g Hall.
  - by eexists [], g.
  - apply andb_prop in Hall as [Hfs Hall]. rewrite shuffle_sets_cons.
    destruct (shuffle_features_supported fs seed g Hfs) as (fs' & g1 & -> & Hsh).
    destruct (IH g1 Hall) as (out & g2 & Hrun & Hout). simpl. rewrite Hrun. simpl.
    eexists _, g2. split; [done|]. by constructor.
Qed.

Lemma shuffle_sets_unsupported (sets : list (string * Fields T)) seed g :
  forallb (λ p, fields_supported p.2) sets = false →
  is_ValueError (shuffle_sets sets seed g).
Proof.
  revert g. induction sets as [|[name fs] sets IH]; intros g Hall; [done|].
  rewrite shuffle_sets_cons. simpl in Hall.
  destruct (fields_supported fs) eqn:Hfs.
  - destruct (shuffle_features_supported fs seed g Hfs) as (fs' & g1 & -> & _).
    simpl in *. specialize (IH g1 Hall).
    by destruct (shuffle_sets sets seed g1) as [[? ?]|[]].
  - pose proof (shuffle_features_unsupported fs seed g Hfs) as Herr.
    by destruct (_shuffle_features fs seed g) as [[? ?]|[]].
Qed.
End ShuffleFacts.

Lemma forallb_fmap {A B} (f : A → B) (P : B → bool) (l : list A) :
  forallb P (f <$> l) = forallb (λ x, P (f x)) l.
Proof. induction l as [|x l IH]; csimpl; [done|]. by rewrite IH. Qed.

(** C10: on a scalar graph tensor whose features are all dense or ragged,
    [shuffle_scalar_components] returns a graph tensor with the same node
    sets, edge sets, adjacency and component sizes, in which every dense
    feature is a permutation of the rows of the original and every ragged
    feature keeps the original row partition while its values are permuted
    across the rows; a feature that is neither dense nor ragged causes a
    [ValueError]. *)
Theorem shuffle_scalar_components_spec {T G : Type} `{RandomShuffle G}
    (g : GraphTensor T) (seed : option Z) (rng : G) :
  rank g = 0%nat →
  (graph_supported g = true →
     ∃ g' rng', shuffle_scalar_components g seed rng = Ok (g', rng')
       ∧ graph_shuffled g g')
  ∧ (graph_supported g = false →
     is_ValueError (shuffle_scalar_components g seed rng)).
Proof.
  intros Hrank. unfold shuffle_scalar_components, check_scalar_graph_tensor.
  rewrite Hrank. simpl. unfold graph_supported. split.
  - intros [[Hctx Hnodes]%andb_prop Hedges]%andb_prop.
    destruct (shuffle_features_supported _ seed rng Hctx) as (ctx' & g0 & -> & Hctx').
    simpl.
    destruct (shuffle_sets_supported (prod_map id node_features <$> node_sets g)
                seed g0) as (nodes' & g1 & -> & Hnodes').
    { by rewrite forallb_fmap. }
    simpl.
    destruct (shuffle_sets_supported (prod_map id edge_features <$> edge_sets g)
                seed g1) as (edges' & g2 & -> & Hedges').
    { by rewrite forallb_fmap. }
    simpl. eexists _, g2. split; [done|].
    unfold graph_shuffled, replace_features. simpl.
    do 3 (split; [done|]). split; [|split; [|split]].
    + apply dict_keys_fmap_entries. intros [name ns]. simpl.
      by destruct (Dict.get nodes' name).
    + intros name ns Hns.
      rewrite (dict_get_fmap_entries _
        (λ name ns, match Dict.get nodes' name with
                    | Some fs => {| node_features := fs;
                                    node_sizes := node_sizes ns;
                                    node_spec_total_size := node_spec_total_size ns |}
                    | None => ns
                    end)).
      2:{ intros [name0 ns0]. simpl. by destruct (Dict.get nodes' name0). }
      rewrite Hns. simpl.
      destruct (dict_get_related _ _ _ name (node_features ns) Hnodes')
        as (fs' & -> & Hfs').
      { rewrite (dict_get_fmap_entries _ (λ _, node_features)) by (by intros []).
        by rewrite Hns. }
      eexists. split; [done|]. by do 2 (split; [done|]).
    + apply dict_keys_fmap_entries. intros [name es]. simpl.
      by destruct (Dict.get edges' name).
    + intros name es Hes.
      rewrite (dict_get_fmap_entries _
        (λ name es, match Dict.get edges' name with
                    | Some fs => {| edge_features := fs;
                                    edge_sizes := edge_sizes es;
                                    edge_spec_total_size := edge_spec_total_size es;
                                    adjacency := adjacency es |}
                    | None => es
                    end)).
      2:{ intros [name0 es0]. simpl. by destruct (Dict.get edges' name0). }
      rewrite Hes. simpl.
      destruct (dict_get_related _ _ _ name (edge_features es) Hedges')
        as (fs' & -> & Hfs').
      { rewrite (dict_get_fmap_entries _ (λ _, edge_features)) by (by intros []).
        by rewrite Hes. }
      eexists. split; [done|]. by do 3 (split; [done|]).
  - intros Hunsup.
    destruct (fields_supported (context_features (context g))) eqn:Hctx.
    2:{ pose proof (shuffle_features_unsupported _ seed rng Hctx) as Herr.
        by destruct (_shuffle_features _ seed rng) as [[? ?]|[]]. }
    destruct (shuffle_features_supported _ seed rng Hctx) as (ctx' & g0 & -> & _).
    simpl in *.
    destruct (forallb (λ p, fields_supported (node_features p.2)) (node_sets g))
      eqn:Hnodes.
    2:{ pose proof (shuffle_sets_unsupported
          (prod_map id node_features <$> node_sets g) seed g0) as Herr.
        rewrite forallb_fmap in Herr. specialize (Herr Hnodes).
        by destruct (shuffle_sets _ seed g0) as [[? ?]|[]]. }
    destruct (shuffle_sets_supported (prod_map id node_features <$> node_sets g)
                seed g0) as (nodes' & g1 & -> & _).
    { by rewrite forallb_fmap. }
    simpl in *.
    pose proof (shuffle_sets_unsupported
      (prod_map id edge_features <$> edge_sets g) seed g1) as Herr.
    rewrite forallb_fmap in Herr. specialize (Herr Hunsup).
    by destruct (shuffle_sets _ seed g1) as [[? ?]|[]].
Qed.

Lemma shuffle_scalar_components_spec_witness :
  (∃ g' rng', shuffle_scalar_components example_graph (Some 7) 0%nat = Ok (g', rng')
     ∧ graph_shuffled example_graph g')
  ∧ is_ValueError
      (shuffle_scalar_components example_graph_unsupported (Some 7) 0%nat).
Proof.
  split.
  - apply (shuffle_scalar_components_spec example_graph (Some 7) 0%nat eq_refl).
    reflexivity.
  - apply (shuffle_scalar_components_spec example_graph_unsupported
             (Some 7) 0%nat eq_refl).
    reflexivity.
Defined.

Example shuffle_ragged_example :
  _shuffle [("words", Ragged [[1; 2]; []; [3]])] None "words" 0%nat
  = Ok (Ragged [[3; 2]; []; [1]], 1%nat).
Proof. reflexivity. Qed.

(** ** The adaptation horizon *)

Section AdaptationHorizon.
Import TrajectoryLengthAdaptation.
Context {State Seed R : Type}.
Variable inner_one_step : State → R → Seed → State.
Variable update_max_trajectory_length : State → State → KernelResults R → R.
Variable update_averaged_sq_grad : State → State → KernelResults R → R.
Variable initial_max_trajectory_length : R.
Variable initial_averaged_sq_grad : R.
Variable num_adaptation_steps : nat.
Variable state : State.
Variable seeds : nat → Seed.

Local Abbreviation chain :=
  (run inner_one_step update_max_trajectory_length update_averaged_sq_grad
     initial_max_trajectory_length initial_averaged_sq_grad
     num_adaptation_steps state seeds).

Lemma run_S k :
  chain (S k)
  = one_step inner_one_step update_max_trajectory_length update_averaged_sq_grad
      num_adaptation_steps (chain k).1 (chain k).2 (seeds k).
Proof. simpl. by destruct (chain k). Qed.

Lemma run_step k : step (chain k).2 = k.
Proof.
  induction k as [|k IH]; [done|].
  rewrite run_S. simpl. by rewrite IH.
Qed.

Lemma run_adapting k :
  (k < num_adaptation_steps)%nat →
  accumulators (chain (S k)).2
  = (update_max_trajectory_length (chain k).1 (chain (S k)).1 (chain k).2,
     update_averaged_sq_grad (chain k).1 (chain (S k)).1 (chain k).2).
Proof.
  intros Hk. rewrite run_S. unfold accumulators, one_step. simpl.
  by rewrite run_step, bool_decide_eq_true_2.
Qed.

Lemma run_frozen_step k :
  (num_adaptation_steps ≤ k)%nat →
  accumulators (chain (S k)).2 = accumulators (chain k).2.
Proof.
  intros Hk. rewrite run_S. unfold accumulators, one_step. simpl.
  rewrite run_step, bool_decide_eq_false_2; [done|lia].
Qed.

(** C9 (against the kernel modelled from the specification): with an
    adaptation horizon of [num_adaptation_steps], each of the first that
    many [one_step] calls after [bootstrap_results] sets the accumulators to
    the result of the adaptation update, and no later call changes them:
    after any later step [max_trajectory_length] (and the running average)
    still has the value it had after step [num_adaptation_steps]. *)
Theorem adaptation_freezes_after_horizon :
  (∀ k, (k < num_adaptation_steps)%nat →
     accumulators (chain (S k)).2
     = (update_max_trajectory_length (chain k).1 (chain (S k)).1 (chain k).2,
        update_averaged_sq_grad (chain k).1 (chain (S k)).1 (chain k).2))
  ∧ (∀ k, (num_adaptation_steps ≤ k)%nat →
       accumulators (chain (S k)).2 = accumulators (chain k).2
       ∧ accumulators (chain k).2 = accumulators (chain num_adaptation_steps).2
       ∧ max_trajectory_length (chain k).2
         = max_trajectory_length (chain num_adaptation_steps).2).
Proof.
  split; [apply run_adapting|].
  intros k Hk. split; [by apply run_frozen_step|].
  assert (accumulators (chain k).2 = accumulators (chain num_adaptation_steps).2)
    as Hfrozen.
  { induction Hk as [|k Hk IH]; [done|]. by rewrite run_frozen_step. }
  split; [done|]. exact (f_equal fst Hfrozen).
Qed.
End AdaptationHorizon.

Lemma adaptation_freezes_after_horizon_witness :
  let chain :=
    TrajectoryLengthAdaptation.run (State:=Z) (Seed:=unit) (R:=Z)
      (λ s l _, s + l) (λ _ _ kr, TrajectoryLengthAdaptation.max_trajectory_length kr + 1)
      (λ _ s' _, s' * s') 0 0 1%nat 0 (λ _, ()) in
  TrajectoryLengthAdaptation.max_trajectory_length (chain 1%nat).2 = 1
  ∧ TrajectoryLengthAdaptation.max_trajectory_length (chain 2%nat).2
    = TrajectoryLengthAdaptation.max_trajectory_length (chain 1%nat).2.
Proof.
  intros chain.
  destruct (adaptation_freezes_after_horizon (State:=Z) (Seed:=unit) (R:=Z)
              (λ s l _, s + l)
              (λ _ _ kr, TrajectoryLengthAdaptation.max_trajectory_length kr + 1)
              (λ _ s' _, s' * s') 0 0 1%nat 0 (λ _, ())) as [Hadapt Hfreeze].
  split.
  - exact (f_equal fst (Hadapt 0%nat (le_n 1))).
  - apply (Hfreeze 2%nat). repeat constructor.
Defined.


(** * Further properties of the operations *)

(** ** Generic dispatch *)

(** X1: the name check of the generic operations accepts exactly the calls
    that pass one of the two set names with tag CONTEXT, or an edge set name
    and no node set name with any other tag, and rejects every other call
    with a [ValueError]; with tag CONTEXT the number in the message is the
    number of names that were not passed (0 when both are passed, 2 when
    none is). *)
Theorem validate_names_and_tag_spec (tag : IncidentNodeOrContextTag)
    (edge_set_name : option EdgeSetName) (node_set_name : option NodeSetName) :
  (_validate_names_and_tag tag edge_set_name node_set_name = Ok ()
   ↔ match tag with
     | CONTEXT => is_none edge_set_name ≠ is_none node_set_name
     | Incident _ => is_none edge_set_name = false ∧ is_none node_set_name = true
     end)
  ∧ (_validate_names_and_tag tag edge_set_name node_set_name ≠ Ok () →
     is_ValueError (_validate_names_and_tag tag edge_set_name node_set_name))
  ∧ (∀ e n, _validate_names_and_tag CONTEXT (Some e) (Some n)
            = Raise (ValueError
                "With tag CONTEXT, must pass exactly 1 of edge_set_name, node_set_name; got 0."))
  ∧ _validate_names_and_tag CONTEXT None None
    = Raise (ValueError
        "With tag CONTEXT, must pass exactly 1 of edge_set_name, node_set_name; got 2.").
Proof.
  split; [|split; [|split; [done|done]]].
  - destruct tag, edge_set_name, node_set_name; simpl; split; try done;
      try (by intros []); by intros [? ?].
  - by destruct tag, edge_set_name, node_set_name.
Qed.

(** X2: the generic [broadcast] is the context-to-nodes, context-to-edges or
    node-to-edges broadcast selected by the tag and the name that is passed,
    and raises a [ValueError] for every combination the name check
    rejects. *)
Theorem broadcast_dispatch {T : Type} (g : GraphTensor T)
    (tag : IncidentNodeOrContextTag)
    (edge_set_name : option EdgeSetName) (node_set_name : option NodeSetName)
    (fv : option (Field T)) (fn : option FieldName) :
  (∀ n, broadcast g CONTEXT None (Some n) fv fn
        = broadcast_context_to_nodes g n fv fn)
  ∧ (∀ e, broadcast g CONTEXT (Some e) None fv fn
          = broadcast_context_to_edges g e fv fn)
  ∧ (∀ e node_tag, broadcast g (Incident node_tag) (Some e) None fv fn
                   = broadcast_node_to_edges g e node_tag fv fn)
  ∧ (_validate_names_and_tag tag edge_set_name node_set_name ≠ Ok () →
     is_ValueError (broadcast g tag edge_set_name node_set_name fv fn)).
Proof.
  repeat split; try done.
  by destruct tag, edge_set_name, node_set_name.
Qed.

(** X3: the generic [pool] is the nodes-to-context, edges-to-context or
    edges-to-node pooling selected by the tag and the name that is passed,
    and raises a [ValueError] for every combination the name check
    rejects. *)
Theorem pool_dispatch {T : Type} (reg : Registry T) (g : GraphTensor T)
    (tag : IncidentNodeOrContextTag)
    (edge_set_name : option EdgeSetName) (node_set_name : option NodeSetName)
    (reduce_type : string)
    (fv : option (Field T)) (fn : option FieldName) :
  (∀ n, pool reg g CONTEXT None (Some n) reduce_type fv fn
        = pool_nodes_to_context reg g n reduce_type fv fn)
  ∧ (∀ e, pool reg g CONTEXT (Some e) None reduce_type fv fn
          = pool_edges_to_context reg g e reduce_type fv fn)
  ∧ (∀ e node_tag, pool reg g (Incident node_tag) (Some e) None reduce_type fv fn
                   = pool_edges_to_node reg g e node_tag reduce_type fv fn)
  ∧ (_validate_names_and_tag tag edge_set_name node_set_name ≠ Ok () →
     is_ValueError (pool reg g tag edge_set_name node_set_name reduce_type fv fn)).
Proof.
  repeat split; try done.
  by destruct tag, edge_set_name, node_set_name.
Qed.

(** X4: [resolve_value] never reaches its final assertion; it returns a
    value exactly when only the value is given (that value) or only a name
    is given that is a key of the mapping (the value stored there), and a
    name that is not a key raises [KeyError]. *)
Theorem resolve_value_outcomes {T : Type} (m : Fields T)
    (fv : option (Field T)) (fn : option FieldName) :
  (∀ msg, resolve_value m fv fn ≠ Raise (AssertionError msg))
  ∧ (∀ v, resolve_value m fv fn = Ok v
          ↔ (fv = Some v ∧ fn = None)
            ∨ (fv = None ∧ ∃ name, fn = Some name ∧ Dict.get m name = Some v))
  ∧ (∀ name, fv = None → fn = Some name → Dict.get m name = None →
       resolve_value m fv fn = Raise (KeyError (Name name))).
Proof.
  split; [|split].
  - intros msg. destruct fv, fn as [name|]; try done.
    unfold resolve_value, getitem. simpl. by destruct (Dict.get m name).
  - intros v. destruct fv as [v0|], fn as [name|]; simpl.
    + split; [done|]. intros [[_ [=]]|[[=] _]].
    + split; [intros [= ->]; by left|]. by intros [[[= ->] _]|[[=] _]].
    + unfold resolve_value, getitem. simpl.
      destruct (Dict.get m name) as [v1|] eqn:Hv.
      * split; [intros [= ->]; right; eauto|].
        intros [[[=] _]|[_ (name' & [= <-] & Hv')]]. congruence.
      * split; [done|]. intros [[[=] _]|[_ (name' & [= <-] & Hv')]]. congruence.
    + split; [done|]. intros [[[=] _]|[_ (name' & [=] & _)]].
  - intros name -> -> Hnone. unfold resolve_value, getitem. simpl. by rewrite Hnone.
Qed.

(** ** Rejected calls *)

(** X5: on a graph tensor that is not scalar every broadcast, pool and
    gather call raises, with a [ValueError] whenever the sets it names
    exist; the node-to-edges broadcast, the edges-to-node pooling, the
    first-node readout and the component shuffle check the rank before
    anything else and always raise a [ValueError]. *)
Theorem non_scalar_graph_rejected {T G : Type} `{RandomShuffle G}
    (reg : Registry T) (g : GraphTensor T) (c : OpCall)
    (fv : option (Field T)) (fn : option FieldName)
    (seed : option Z) (rng : G) :
  rank g ≠ 0%nat →
  raises (call reg g c fv fn)
  ∧ (∀ m, values_map g c = Ok m → is_ValueError (call reg g c fv fn))
  ∧ (∀ e tag, is_ValueError (broadcast_node_to_edges g e tag fv fn))
  ∧ (∀ e tag rt, is_ValueError (pool_edges_to_node reg g e tag rt fv fn))
  ∧ (∀ n, is_ValueError (gather_first_node g n fv fn))
  ∧ is_ValueError (shuffle_scalar_components g seed rng).
Proof.
  intros Hrank.
  assert (∀ name, check_scalar_graph_tensor g name
                  = Raise (ValueError (name +:+ " requires a scalar GraphTensor.")))
    as Hcheck.
  { intros name. unfold check_scalar_graph_tensor. by rewrite decide_False. }
  split; [|split; [|split; [|split; [|split]]]].
  - destruct_call c; unfold_ops; unfold_result; unfold _validate_names_and_tag;
      rewrite ?Hcheck; repeat (case_match; simplify_eq/=; rewrite ?Hcheck in *; try done);
      done.
  - intros m Hm.
    destruct_call c; unfold_ops; unfold_result; unfold _validate_names_and_tag;
      rewrite ?Hcheck; repeat (case_match; simplify_eq/=; rewrite ?Hcheck in *; try done);
      done.
  - intros e tag. unfold broadcast_node_to_edges. by rewrite Hcheck.
  - intros e tag rt. unfold pool_edges_to_node. by rewrite Hcheck.
  - intros n. unfold gather_first_node. by rewrite Hcheck.
  - unfold shuffle_scalar_components. by rewrite Hcheck.
Qed.

Lemma non_scalar_graph_rejected_witness :
  is_ValueError (call (T:=Z) _REGISTERED_REDUCE_OPS example_batched_graph
                   (PoolNodesToContext "paper" "sum") None (Some "hidden"))
  ∧ is_ValueError (shuffle_scalar_components example_batched_graph None 0%nat).
Proof.
  destruct (non_scalar_graph_rejected (T:=Z) (G:=nat) _REGISTERED_REDUCE_OPS
              example_batched_graph (PoolNodesToContext "paper" "sum")
              None (Some "hidden") None 0%nat)
    as (_ & Hcall & _ & _ & _ & Hshuffle); [by intros [=]|].
  split; [|exact Hshuffle].
  by apply (Hcall [("hidden", Dense [10; 20; 30]);
                   ("words", Ragged [[1; 2]; []; [3]])]).
Defined.

(** X6: on a scalar graph tensor, [pool_edges_to_node] reports an unknown
    reduce type before it looks at the edge set or the feature arguments,
    whereas pooling to the context resolves the feature first, so an error
    of the feature arguments wins over the reduce type. *)
Theorem reduce_type_error_precedence {T : Type} (reg : Registry T)
    (g : GraphTensor T) (reduce_type : string)
    (fv : option (Field T)) (fn : option FieldName) :
  rank g = 0%nat →
  (Dict.get reg reduce_type = None →
   ∀ e tag, pool_edges_to_node reg g e tag reduce_type fv fn
            = Raise (ValueError (unknown_reduce_type_msg reduce_type)))
  ∧ (∀ s err, resolve_value (features s) fv fn = Raise err →
              _pool_to_context reg g s reduce_type fv fn = Raise err).
Proof.
  intros Hrank. split.
  - intros Hnone e tag.
    unfold pool_edges_to_node, check_scalar_graph_tensor, _resolve_reduce_op.
    rewrite Hrank. simpl. by rewrite Hnone.
  - intros s err Herr. unfold _pool_to_context, check_scalar_graph_tensor.
    rewrite Hrank. simpl. by rewrite Herr.
Qed.

Lemma reduce_type_error_precedence_witness :
  pool_edges_to_node (T:=Z) _REGISTERED_REDUCE_OPS example_graph "no such set" SOURCE
    "median" None None
  = Raise (ValueError (unknown_reduce_type_msg "median"))
  ∧ pool_nodes_to_context (T:=Z) _REGISTERED_REDUCE_OPS example_graph "paper"
      "median" None None
    = Raise (ValueError "One of feature name of feature value must be specified.").
Proof.
  destruct (reduce_type_error_precedence (T:=Z) _REGISTERED_REDUCE_OPS example_graph
              "median" None None eq_refl) as [Hnode Hcontext].
  split; [by apply Hnode|].
  exact (Hcontext
    (OfNodeSet {| node_features := [("hidden", Dense [10; 20; 30]);
                                    ("words", Ragged [[1; 2]; []; [3]])];
                  node_sizes := [2; 1];
                  node_spec_total_size := None |}) _ eq_refl).
Defined.

(** ** Registration *)

(** X7: a registration either succeeds, after which the name resolves to the
    new operation and every other name resolves as before, or it raises the
    already-exists [ValueError]; the latter happens only without
    [allow_override] for a name that resolved before, and leaves the
    registry as it was. *)
Theorem register_then_resolve {T : Type} (reg : Registry T)
    (reduce_type : string) (op : UnsortedReduceOp T) (allow_override : bool) :
  let outcome := register_reduce_operation reg reduce_type op allow_override in
  (outcome.1 = Ok ()
   ∧ _resolve_reduce_op outcome.2 reduce_type = Ok op
   ∧ (∀ other, other ≠ reduce_type →
        _resolve_reduce_op outcome.2 other = _resolve_reduce_op reg other))
  ∨ (outcome = (Raise (ValueError already_exists_msg), reg)
     ∧ allow_override = false
     ∧ ∃ old, _resolve_reduce_op reg reduce_type = Ok old).
Proof.
  unfold register_reduce_operation, _resolve_reduce_op.
  destruct (negb allow_override && Dict.contains reg reduce_type) eqn:Hguard.
  - right. apply andb_prop in Hguard as [Hallow Hcontains].
    apply negb_true_iff in Hallow. apply dict_contains_spec in Hcontains as [old Hold].
    split; [done|]. split; [done|]. exists old. by rewrite Hold.
  - left. simpl. split; [done|]. rewrite dict_get_set_eq. split; [done|].
    intros other Hne. by rewrite dict_get_set_ne.
Qed.

(** X8: registration never removes or reorders names: the old name list is
    a prefix of the new one, which is either the same list or the old list
    with the new name appended, and distinct names stay distinct. *)
Theorem registration_keeps_names {T : Type} (reg : Registry T)
    (reduce_type : string) (op : UnsortedReduceOp T) (allow_override : bool) :
  let names := get_registered_reduce_operation_names reg in
  let names' := get_registered_reduce_operation_names
                  (register_reduce_operation reg reduce_type op allow_override).2 in
  names `prefix_of` names'
  ∧ (names' = names ∨ names' = names ++ [reduce_type])
  ∧ (NoDup names → NoDup names').
Proof.
  unfold register_reduce_operation, get_registered_reduce_operation_names.
  destruct (negb allow_override && Dict.contains reg reduce_type); simpl.
  { split; [done|]. split; [by left|done]. }
  destruct (Dict.get reg reduce_type) as [old|] eqn:Hold.
  - rewrite dict_keys_set_present by eauto. split; [done|]. split; [by left|done].
  - rewrite dict_keys_set_absent by done.
    split; [by apply prefix_app_r|]. split; [by right|].
    intros Hnd. apply NoDup_app. split; [done|]. split; [|apply NoDup_singleton].
    intros name Hin ->%list_elem_of_singleton.
    apply dict_elem_of_keys in Hin as [? ?]. congruence.
Qed.

(** ** Single-edge incidence and the other built-in reductions *)

Section SingleMember.
Context {T : Type}.
Implicit Types (init : T) (comb : T → T → T) (v b : Field T) (indices : list Z).

Lemma ragged_row_reduce_single init comb (r : list T) :
  (∀ x, comb init x = x) →
  (λ p, foldl comb init (omap (λ r' : list T, r' !! p) [r]))
    <$> seq 0 (max_list (length <$> [r])) = r.
Proof.
  intros Hid. simpl. rewrite Nat.max_0_r. apply list_eq. intros p.
  rewrite list_lookup_fmap.
  destruct (decide (p < length r)%nat) as [Hp|Hp].
  - rewrite lookup_seq_lt by done. simpl.
    destruct (lookup_lt_is_Some_2 r p Hp) as [x Hx]. rewrite Hx. simpl.
    by rewrite Hid.
  - rewrite lookup_seq_ge by lia. simpl. symmetry. apply lookup_ge_None. lia.
Qed.

Lemma gather_then_reduce init comb v b indices :
  (∀ x, comb init x = x) →
  is_supported v = true →
  indices ≡ₚ seqZ 0 (Z.of_nat (outer_size v)) →
  tf_gather v indices = Ok b →
  unsorted_segment init comb b indices (Z.of_nat (outer_size v)) = Ok v.
Proof.
  intros Hid Hsup Hperm Hb. unfold unsorted_segment.
  destruct v as [rows|rows|]; [| |done]; simpl in *.
  - destruct (gather_rows rows indices) as [rs|] eqn:Hg; simplify_eq/=.
    apply gather_rows_Ok in Hg.
    rewrite check_segment_ids_perm; [simpl|by eapply Forall2_length|lia|done].
    unfold segment_reduce. rewrite Nat2Z.id.
    rewrite (segments_roundtrip (foldl comb init) rows indices rs); [done| |done..].
    intros r. simpl. apply Hid.
  - destruct (gather_rows rows indices) as [rs|] eqn:Hg; simplify_eq/=.
    apply gather_rows_Ok in Hg.
    rewrite check_segment_ids_perm; [simpl|by eapply Forall2_length|lia|done].
    unfold ragged_segment_reduce. rewrite Nat2Z.id.
    rewrite (segments_roundtrip
      (λ ms, (λ p, foldl comb init (omap (λ r' : list T, r' !! p) ms))
               <$> seq 0 (max_list (length <$> ms))) rows indices rs); [done| |done..].
    intros r. by apply ragged_row_reduce_single.
Qed.
End SingleMember.

Section RoundTripCalls.
Context {T : Type}.

Lemma broadcast_by_value (g : GraphTensor T) e tag es name indices ns v :
  rank g = 0%nat →
  Dict.get (edge_sets g) e = Some es →
  Dict.get (adjacency es) tag = Some (name, indices) →
  Dict.get (node_sets g) name = Some ns →
  broadcast_node_to_edges g e tag (Some v) None = tf_gather v indices.
Proof.
  intros Hrank Hes Hadj Hns.
  unfold broadcast_node_to_edges, check_scalar_graph_tensor, getitem,
    node_set_name, adjacency_getitem.
  rewrite Hrank; simpl. rewrite Hes; simpl. rewrite Hadj; simpl.
  by rewrite Hns.
Qed.

Lemma pool_by_value (reg : Registry T) (g : GraphTensor T) e tag es name indices ns
    rt op b :
  rank g = 0%nat →
  Dict.get reg rt = Some op →
  Dict.get (edge_sets g) e = Some es →
  Dict.get (adjacency es) tag = Some (name, indices) →
  Dict.get (node_sets g) name = Some ns →
  pool_edges_to_node reg g e tag rt (Some b) None
  = op b indices (total_node_count ns).
Proof.
  intros Hrank Hop Hes Hadj Hns.
  unfold pool_edges_to_node, check_scalar_graph_tensor,
    _resolve_reduce_op, getitem, node_set_name, adjacency_getitem.
  rewrite Hrank; simpl. rewrite Hop; simpl. rewrite Hes; simpl.
  rewrite Hadj; simpl. by rewrite Hns.
Qed.

Lemma gather_permutation_in_range (v : Field T) indices :
  is_supported v = true →
  indices ≡ₚ seqZ 0 (Z.of_nat (outer_size v)) →
  ∃ b, tf_gather v indices = Ok b.
Proof.
  intros Hsup Hperm. apply tf_gather_in_range; [done|].
  apply Forall_forall. intros k Hk. rewrite Hperm in Hk.
  apply elem_of_seqZ in Hk. lia.
Qed.
End RoundTripCalls.

(** X9: with a single-edge incidence, broadcasting a node feature to the
    edges and pooling it back returns the feature for every reduce type that
    is registered as a segment fold whose initial value is a left identity
    of its combining operation (as are sum, prod, max and min on the values
    the element type can hold). *)
Theorem broadcast_pool_roundtrip_fold {T : Type} (reg : Registry T)
    (g : GraphTensor T) (e : EdgeSetName) (tag : IncidentNodeTag)
    (es : EdgeSet T) (name : NodeSetName) (indices : list Z) (ns : NodeSet T)
    (v : Field T) (reduce_type : string) (init : T) (comb : T → T → T) :
  (∀ x : T, comb init x = x) →
  Dict.get reg reduce_type = Some (unsorted_segment init comb) →
  rank g = 0%nat →
  Dict.get (edge_sets g) e = Some es →
  Dict.get (adjacency es) tag = Some (name, indices) →
  Dict.get (node_sets g) name = Some ns →
  indices ≡ₚ seqZ 0 (total_node_count ns) →
  is_supported v = true →
  Z.of_nat (outer_size v) = total_node_count ns →
  ∃ b, broadcast_node_to_edges g e tag (Some v) None = Ok b
     ∧ pool_edges_to_node reg g e tag reduce_type (Some b) None = Ok v.
Proof.
  intros Hid Hop Hrank Hes Hadj Hns Hperm Hsup Hsize.
  rewrite <- Hsize in Hperm.
  destruct (gather_permutation_in_range v indices Hsup Hperm) as [b Hb].
  exists b. rewrite (broadcast_by_value g e tag es name indices ns) by done.
  split; [done|].
  rewrite (pool_by_value reg g e tag es name indices ns reduce_type
             (unsorted_segment init comb)) by done.
  rewrite <- Hsize. by apply gather_then_reduce.
Qed.

Lemma broadcast_pool_roundtrip_fold_witness :
  ∃ b, broadcast_node_to_edges example_graph "cites" SOURCE
         (Some (Ragged [[1; 2]; []; [3]])) None = Ok b
     ∧ pool_edges_to_node _REGISTERED_REDUCE_OPS example_graph "cites" SOURCE "prod"
         (Some b) None = Ok (Ragged [[1; 2]; []; [3]]).
Proof.
  apply (broadcast_pool_roundtrip_fold (T:=Z) _REGISTERED_REDUCE_OPS example_graph
           "cites" SOURCE
           {| edge_features := [("weight", Dense [1; 2; 3])];
              edge_sizes := [2; 1];
              edge_spec_total_size := Some 3;
              adjacency := [(SOURCE, ("paper", [2; 0; 1]));
                            (TARGET, ("paper", [0; 0; 2]))] |}
           "paper" [2; 0; 1]
           {| node_features := [("hidden", Dense [10; 20; 30]);
                                ("words", Ragged [[1; 2]; []; [3]])];
              node_sizes := [2; 1];
              node_spec_total_size := None |}
           (Ragged [[1; 2]; []; [3]]) "prod" 1 Z.mul); try reflexivity.
  - intros x. apply Z.mul_1_l.
  - change (seqZ 0 _) with [0; 1; 2].
    apply (Permutation_cons_append [0; 1] 2).
Defined.

Section MeanSingleMember.
Context {T : Type} `{Dtype T}.
Hypothesis add_zero_l : ∀ x : T, add zero x = x.
Hypothesis maximum_one : maximum one one = (one : T).
Hypothesis div_one_r : ∀ x : T, div x one = x.

Lemma zip_with_div_ones (r : list T) : zip_with div r ((λ _, one) <$> r) = r.
Proof using div_one_r.
  induction r as [|x r IH]; csimpl; [done|]. by rewrite div_one_r, IH.
Qed.

Lemma replicate_as_fmap {A} (l : list A) (y : T) :
  replicate (length l) y = (λ _, y) <$> l.
Proof. induction l as [|x l IH]; csimpl; [done|]. by rewrite IH. Qed.

Lemma gather_then_mean (v b : Field T) indices :
  is_supported v = true →
  indices ≡ₚ seqZ 0 (Z.of_nat (outer_size v)) →
  tf_gather v indices = Ok b →
  unsorted_segment_mean b indices (Z.of_nat (outer_size v)) = Ok v.
Proof using add_zero_l maximum_one div_one_r.
  intros Hsup Hperm Hb. unfold unsorted_segment_mean.
  destruct v as [rows|rows|]; [| |done]; simpl in *.
  - destruct (gather_rows rows indices) as [rs|] eqn:Hg; simplify_eq/=.
    apply gather_rows_Ok in Hg.
    rewrite check_segment_ids_perm; [simpl|by eapply Forall2_length|lia|done].
    unfold segment_reduce. rewrite Nat2Z.id.
    rewrite (segments_roundtrip (foldl add zero) rows indices rs); [| |done..].
    2:{ intros r. simpl. apply add_zero_l. }
    rewrite replicate_as_fmap.
    assert ((λ s, foldl add zero
               (segment_members indices ((λ _, one) <$> rs) (Z.of_nat s)))
              <$> seq 0 (length rows) = (λ _, one) <$> rows) as ->.
    { rewrite <- (length_fmap (λ _, one) rows).
      apply (segments_roundtrip (foldl add zero)).
      - intros r. simpl. apply add_zero_l.
      - by rewrite length_fmap.
      - apply Forall2_fmap_r. eapply Forall2_impl; [done|].
        intros k r. apply (row_at_fmap (λ _, one)). }
    rewrite <- list_fmap_compose.
    assert ((maximum one ∘ (λ _ : T, one)) <$> rows = (λ _, one) <$> rows) as ->.
    { apply list_fmap_ext. intros _ x _. simpl. apply maximum_one. }
    by rewrite zip_with_div_ones.
  - destruct (gather_rows rows indices) as [rs|] eqn:Hg; simplify_eq/=.
    apply gather_rows_Ok in Hg.
    rewrite check_segment_ids_perm; [simpl|by eapply Forall2_length|lia|done].
    unfold ragged_segment_reduce. rewrite Nat2Z.id.
    rewrite (segments_roundtrip
      (λ ms, (λ p, foldl add zero (omap (λ r' : list T, r' !! p) ms))
               <$> seq 0 (max_list (length <$> ms))) rows indices rs); [| |done..].
    2:{ intros r. by apply ragged_row_reduce_single. }
    assert ((λ s,
               (λ p, foldl add zero
                       (omap (λ r : list T, r !! p)
                          (segment_members indices
                             ((λ r : list T, (λ _, one) <$> r) <$> rs) (Z.of_nat s))))
                 <$> seq 0 (max_list
                              (length <$>
                               segment_members indices
                                 ((λ r : list T, (λ _, one) <$> r) <$> rs)
                                 (Z.of_nat s))))
              <$> seq 0 (length rows)
            = (λ r : list T, (λ _, one) <$> r) <$> rows) as ->.
    { rewrite <- (length_fmap (λ r : list T, (λ _, one) <$> r) rows).
      apply (segments_roundtrip
        (λ ms, (λ p, foldl add zero (omap (λ r' : list T, r' !! p) ms))
                 <$> seq 0 (max_list (length <$> ms)))).
      - intros r. by apply ragged_row_reduce_single.
      - by rewrite length_fmap.
      - apply Forall2_fmap_r. eapply Forall2_impl; [done|].
        intros k r. apply (row_at_fmap (λ r : list T, (λ _, one) <$> r)). }
    f_equal. f_equal. clear -div_one_r. induction rows as [|r rows IH]; csimpl; [done|].
    by rewrite zip_with_div_ones, IH.
Qed.
End MeanSingleMember.

(** X10: with a single-edge incidence, broadcasting a node feature to the
    edges and pooling it back with reduce type mean returns the feature,
    provided zero is a left identity of addition, dividing by one is the
    identity and the maximum of one and one is one. *)
Theorem broadcast_pool_roundtrip_mean {T : Type} `{Dtype T}
    (g : GraphTensor T) (e : EdgeSetName) (tag : IncidentNodeTag)
    (es : EdgeSet T) (name : NodeSetName) (indices : list Z) (ns : NodeSet T)
    (v : Field T) :
  (∀ x : T, add zero x = x) →
  maximum one one = (one : T) →
  (∀ x : T, div x one = x) →
  rank g = 0%nat →
  Dict.get (edge_sets g) e = Some es →
  Dict.get (adjacency es) tag = Some (name, indices) →
  Dict.get (node_sets g) name = Some ns →
  indices ≡ₚ seqZ 0 (total_node_count ns) →
  is_supported v = true →
  Z.of_nat (outer_size v) = total_node_count ns →
  ∃ b, broadcast_node_to_edges g e tag (Some v) None = Ok b
     ∧ pool_edges_to_node _REGISTERED_REDUCE_OPS g e tag "mean" (Some b) None = Ok v.
Proof.
  intros Hadd Hmax Hdiv Hrank Hes Hadj Hns Hperm Hsup Hsize.
  rewrite <- Hsize in Hperm.
  destruct (gather_permutation_in_range v indices Hsup Hperm) as [b Hb].
  exists b. rewrite (broadcast_by_value g e tag es name indices ns) by done.
  split; [done|].
  rewrite (pool_by_value _REGISTERED_REDUCE_OPS g e tag es name indices ns "mean"
             unsorted_segment_mean) by done.
  rewrite <- Hsize. by apply gather_then_mean.
Qed.

Lemma broadcast_pool_roundtrip_mean_witness :
  ∃ b, broadcast_node_to_edges example_graph "cites" SOURCE
         (Some (Dense [10; 20; 30])) None = Ok b
     ∧ pool_edges_to_node _REGISTERED_REDUCE_OPS example_graph "cites" SOURCE "mean"
         (Some b) None = Ok (Dense [10; 20; 30]).
Proof.
  apply (broadcast_pool_roundtrip_mean (T:=Z) example_graph
           "cites" SOURCE
           {| edge_features := [("weight", Dense [1; 2; 3])];
              edge_sizes := [2; 1];
              edge_spec_total_size := Some 3;
              adjacency := [(SOURCE, ("paper", [2; 0; 1]));
                            (TARGET, ("paper", [0; 0; 2]))] |}
           "paper" [2; 0; 1]
           {| node_features := [("hidden", Dense [10; 20; 30]);
                                ("words", Ragged [[1; 2]; []; [3]])];
              node_sizes := [2; 1];
              node_spec_total_size := None |}
           (Dense [10; 20; 30])); try reflexivity.
  - intros x. apply Z.div_1_r.
  - change (seqZ 0 _) with [0; 1; 2].
    apply (Permutation_cons_append [0; 1] 2).
Defined.

(** ** Rows and shapes of broadcast and pooled features *)

Lemma gather_rows_out_of_range {A} (rows : list A) (indices : list Z) :
  ¬ Forall (λ k, 0 ≤ k < Z.of_nat (length rows)) indices →
  gather_rows rows indices = Raise (InvalidArgumentError "indices out of range").
Proof.
  induction indices as [|k indices IH]; intros Hbad.
  - destruct Hbad. constructor.
  - simpl. unfold lookup_index.
    destruct (decide (0 ≤ k)) as [Hk|Hk]; [|done].
    destruct (rows !! Z.to_nat k) as [r|] eqn:Hr; [|done]. simpl.
    rewrite IH; [done|]. intros Hall. apply Hbad. constructor; [|done].
    apply lookup_lt_Some in Hr. lia.
Qed.

Lemma tf_gather_out_of_range {T} (v : Field T) (indices : list Z) :
  is_supported v = true →
  ¬ Forall (λ k, 0 ≤ k < Z.of_nat (outer_size v)) indices →
  tf_gather v indices = Raise (InvalidArgumentError "indices out of range").
Proof.
  destruct v as [rows|rows|]; [| |done]; intros _ Hbad; simpl in *;
    by rewrite gather_rows_out_of_range.
Qed.

Lemma field_rows_length {T} (v : Field T) : length (field_rows v) = outer_size v.
Proof. destruct v; simpl; by rewrite ?length_fmap. Qed.

Lemma broadcast_resolved {T} (g : GraphTensor T) e tag es name indices ns fv fn v :
  rank g = 0%nat →
  Dict.get (edge_sets g) e = Some es →
  Dict.get (adjacency es) tag = Some (name, indices) →
  Dict.get (node_sets g) name = Some ns →
  resolve_value (node_features ns) fv fn = Ok v →
  broadcast_node_to_edges g e tag fv fn = tf_gather v indices.
Proof.
  intros Hrank Hes Hadj Hns Hv.
  unfold broadcast_node_to_edges, check_scalar_graph_tensor, getitem,
    node_set_name, adjacency_getitem.
  rewrite Hrank; simpl. rewrite Hes; simpl. rewrite Hadj; simpl.
  rewrite Hns; simpl. by rewrite Hv.
Qed.

(** X11: on a scalar graph tensor, [broadcast_node_to_edges] succeeds
    exactly when every node index of the edge set is within the feature;
    the result then has one row per edge, of the same kind as the feature,
    row [j] being the feature row of the node that edge [j] is incident to;
    an index out of range raises an error. *)
Theorem broadcast_node_to_edges_rows {T : Type} (g : GraphTensor T)
    (e : EdgeSetName) (tag : IncidentNodeTag) (es : EdgeSet T)
    (name : NodeSetName) (indices : list Z) (ns : NodeSet T)
    (fv : option (Field T)) (fn : option FieldName) (v : Field T) :
  rank g = 0%nat →
  Dict.get (edge_sets g) e = Some es →
  Dict.get (adjacency es) tag = Some (name, indices) →
  Dict.get (node_sets g) name = Some ns →
  resolve_value (node_features ns) fv fn = Ok v →
  is_supported v = true →
  (Forall (λ k, 0 ≤ k < Z.of_nat (outer_size v)) indices →
   ∃ out, broadcast_node_to_edges g e tag fv fn = Ok out
     ∧ outer_size out = length indices
     ∧ is_dense_tensor out = is_dense_tensor v
     ∧ is_ragged_tensor out = is_ragged_tensor v
     ∧ ∀ j k, indices !! j = Some k →
         is_Some (field_rows out !! j)
         ∧ field_rows out !! j = field_rows v !! Z.to_nat k)
  ∧ (¬ Forall (λ k, 0 ≤ k < Z.of_nat (outer_size v)) indices →
     broadcast_node_to_edges g e tag fv fn
     = Raise (InvalidArgumentError "indices out of range")).
Proof.
  intros Hrank Hes Hadj Hns Hv Hsup.
  rewrite (broadcast_resolved g e tag es name indices ns fv fn v) by done.
  split; [|by apply tf_gather_out_of_range].
  intros Hrange. destruct (tf_gather_in_range v indices Hsup Hrange) as [out Hout].
  exists out. split; [done|].
  destruct (tf_gather_rows _ _ _ Hout) as (Hd & Hr & Hrows).
  pose proof (Forall2_length _ _ _ Hrows) as Hlen.
  rewrite field_rows_length in Hlen. do 3 (split; [done|]).
  intros j k Hk.
  destruct (lookup_lt_is_Some_2 (field_rows out) j) as [r Hrj].
  { rewrite field_rows_length, <- Hlen. by eapply lookup_lt_Some. }
  split; [by eexists|].
  destruct (Forall2_lookup_lr _ _ _ _ _ _ Hrows Hk Hrj) as [_ Hrow].
  by rewrite Hrj, Hrow.
Qed.

Lemma broadcast_node_to_edges_rows_witness :
  (∃ out, broadcast_node_to_edges example_graph "cites" TARGET None (Some "hidden")
          = Ok out
     ∧ field_rows out !! 2%nat = Some (DenseRow 30))
  ∧ broadcast_node_to_edges example_graph "cites" TARGET (Some (Dense [10; 20])) None
    = Raise (InvalidArgumentError "indices out of range").
Proof.
  pose (es := {| edge_features := [("weight", Dense [1; 2; 3])];
                 edge_sizes := [2; 1];
                 edge_spec_total_size := Some 3;
                 adjacency := [(SOURCE, ("paper", [2; 0; 1]));
                               (TARGET, ("paper", [0; 0; 2]))] |} : EdgeSet Z).
  pose (ns := {| node_features := [("hidden", Dense [10; 20; 30]);
                                   ("words", Ragged [[1; 2]; []; [3]])];
                 node_sizes := [2; 1];
                 node_spec_total_size := None |} : NodeSet Z).
  split.
  - destruct (broadcast_node_to_edges_rows example_graph "cites" TARGET es "paper"
                [0; 0; 2] ns None (Some "hidden") (Dense [10; 20; 30])
                eq_refl eq_refl eq_refl eq_refl eq_refl eq_refl) as [Hok _].
    destruct Hok as (out & Hout & _ & _ & _ & Hrows).
    { repeat constructor; simpl; lia. }
    exists out. split; [done|].
    destruct (Hrows 2%nat 2 eq_refl) as [_ ->]. reflexivity.
  - apply (broadcast_node_to_edges_rows example_graph "cites" TARGET es "paper"
             [0; 0; 2] ns (Some (Dense [10; 20])) None (Dense [10; 20])
             eq_refl eq_refl eq_refl eq_refl eq_refl eq_refl).
    intros Hall. apply Forall_cons in Hall as [_ Hall].
    apply Forall_cons in Hall as [_ Hall]. apply Forall_cons in Hall as [Hk _].
    simpl in Hk. lia.
Defined.

Section BuiltinShapes.
Context {T : Type} `{Dtype T}.
Implicit Types (data out : Field T) (ids : list Z) (n : Z).

Lemma builtin_reduce_op rt (op : UnsortedReduceOp T) :
  Dict.get _REGISTERED_REDUCE_OPS rt = Some op →
  op = unsorted_segment_mean
  ∨ ∃ init comb, op = unsorted_segment init comb.
Proof.
  unfold _REGISTERED_REDUCE_OPS. simpl.
  repeat case_decide; intros [= <-]; [right|left|right|right|right]; try done;
    by eexists _, _.
Qed.

Lemma check_segment_ids_Ok outer ids n :
  check_segment_ids outer ids n = Ok () →
  length ids = outer ∧ 0 ≤ n ∧ Forall (λ i, i < n) ids.
Proof. unfold check_segment_ids. by repeat case_decide. Qed.

Lemma unsorted_segment_shape init comb data ids n out :
  unsorted_segment init comb data ids n = Ok out →
  outer_size out = Z.to_nat n
  ∧ is_dense_tensor out = is_dense_tensor data
  ∧ is_ragged_tensor out = is_ragged_tensor data
  ∧ length ids = outer_size data
  ∧ Forall (λ i, i < n) ids.
Proof.
  unfold unsorted_segment. destruct data as [rows|rows|]; [| |done]; simpl;
    destruct (check_segment_ids (length rows) ids n) as [[]|] eqn:Hcheck; [|done| |done];
    apply check_segment_ids_Ok in Hcheck as (? & ? & ?); simpl; intros [= <-]; simpl;
    unfold segment_reduce, ragged_segment_reduce;
    by rewrite length_fmap, length_seq.
Qed.

Lemma unsorted_segment_mean_shape data ids n out :
  unsorted_segment_mean data ids n = Ok out →
  outer_size out = Z.to_nat n
  ∧ is_dense_tensor out = is_dense_tensor data
  ∧ is_ragged_tensor out = is_ragged_tensor data
  ∧ length ids = outer_size data
  ∧ Forall (λ i, i < n) ids.
Proof.
  unfold unsorted_segment_mean. destruct data as [rows|rows|]; [| |done]; simpl;
    destruct (check_segment_ids (length rows) ids n) as [[]|] eqn:Hcheck; [|done| |done];
    apply check_segment_ids_Ok in Hcheck as (? & ? & ?); simpl; intros [= <-]; simpl;
    unfold segment_reduce, ragged_segment_reduce;
    by rewrite length_zip_with, !length_fmap, !length_seq, Nat.min_id.
Qed.

Lemma builtin_shape rt (op : UnsortedReduceOp T) data ids n out :
  Dict.get _REGISTERED_REDUCE_OPS rt = Some op →
  op data ids n = Ok out →
  outer_size out = Z.to_nat n
  ∧ is_dense_tensor out = is_dense_tensor data
  ∧ is_ragged_tensor out = is_ragged_tensor data
  ∧ length ids = outer_size data
  ∧ Forall (λ i, i < n) ids.
Proof.
  intros [->|(init & comb & ->)]%builtin_reduce_op.
  - apply unsorted_segment_mean_shape.
  - apply unsorted_segment_shape.
Qed.
End BuiltinShapes.

(** ** Components as contiguous blocks *)

Section Blocks.
Context {A : Type}.
Implicit Types (rows : list A) (ids : list Z).

Lemma segment_members_app ids1 ids2 rows1 rows2 s :
  length ids1 = length rows1 →
  segment_members (ids1 ++ ids2) (rows1 ++ rows2) s
  = segment_members ids1 rows1 s ++ segment_members ids2 rows2 s.
Proof.
  intros Hlen. unfold segment_members.
  by rewrite zip_with_app, filter_app, fmap_app.
Qed.

Lemma segment_members_replicate k (x : Z) rows s :
  length rows = k →
  segment_members (replicate k x) rows s = if decide (x = s) then rows else [].
Proof.
  intros <-. induction rows as [|r rows IH]; simpl; [by case_decide|].
  rewrite segment_members_cons, IH. by case_decide.
Qed.

Lemma row_ids_from_cons j k lengths :
  row_ids_from j (k :: lengths)
  = replicate k (Z.of_nat j) ++ row_ids_from (S j) lengths.
Proof.
  unfold row_ids_from. rewrite imap_cons. simpl. rewrite Nat.add_0_r.
  f_equal. f_equal. apply imap_ext. intros i x _. simpl. f_equal. lia.
Qed.

Lemma row_ids_from_length j lengths :
  length (row_ids_from j lengths) = sum_list lengths.
Proof.
  revert j. induction lengths as [|k lengths IH]; intros j; [done|].
  rewrite row_ids_from_cons, length_app, length_replicate, IH. done.
Qed.

Lemma row_ids_from_bounds j lengths :
  Forall (λ i, Z.of_nat j ≤ i < Z.of_nat (j + length lengths)) (row_ids_from j lengths).
Proof.
  revert j. induction lengths as [|k lengths IH]; intros j; [constructor|].
  rewrite row_ids_from_cons. apply Forall_app. split.
  - apply Forall_replicate. simpl. lia.
  - eapply Forall_impl; [apply IH|]. simpl. intros i ?. lia.
Qed.

Lemma segment_members_blocks j lengths rows s :
  length rows = sum_list lengths →
  segment_members (row_ids_from j lengths) rows (Z.of_nat (j + s))
  = default [] (split_rows lengths rows !! s).
Proof.
  revert j rows s. induction lengths as [|k lengths IH]; intros j rows s Hlen.
  - by destruct rows.
  - simpl in Hlen. rewrite row_ids_from_cons.
    rewrite <- (take_drop k rows) at 1.
    rewrite segment_members_app
      by (rewrite length_replicate, length_take; lia).
    rewrite segment_members_replicate by (rewrite length_take; lia).
    destruct s as [|s].
    + rewrite Nat.add_0_r, decide_True by done.
      rewrite segment_members_not_elem_of; [by rewrite app_nil_r|].
      intros Hin. pose proof (row_ids_from_bounds (S j) lengths) as Hb.
      rewrite Forall_forall in Hb. apply Hb in Hin. lia.
    + rewrite decide_False by lia. simpl.
      replace (j + S s)%nat with (S j + s)%nat by lia.
      apply IH. rewrite length_drop. lia.
Qed.

Lemma split_rows_length lengths rows :
  length (split_rows lengths rows) = length lengths.
Proof.
  revert rows. induction lengths as [|k lengths IH]; intros rows; simpl; [done|].
  by rewrite IH.
Qed.

Lemma segments_are_blocks (f : list A → A) lengths rows :
  length rows = sum_list lengths →
  (λ s, f (segment_members (row_ids_from 0 lengths) rows (Z.of_nat s)))
    <$> seq 0 (length lengths)
  = f <$> split_rows lengths rows.
Proof.
  intros Hlen. apply list_eq. intros i. rewrite !list_lookup_fmap.
  destruct (decide (i < length lengths)%nat) as [Hi|Hi].
  - rewrite lookup_seq_lt by done. simpl.
    destruct (lookup_lt_is_Some_2 (split_rows lengths rows) i) as [block Hblock].
    { by rewrite split_rows_length. }
    rewrite Hblock. simpl. f_equal. f_equal.
    pose proof (segment_members_blocks 0 lengths rows i Hlen) as Hb.
    simpl in Hb. by rewrite Hb, Hblock.
  - rewrite lookup_seq_ge by lia. simpl.
    rewrite lookup_ge_None_2; [done|]. rewrite split_rows_length. lia.
Qed.
End Blocks.

Lemma row_lengths_to_row_ids_Ok (row_lengths : list Z) ids :
  row_lengths_to_row_ids row_lengths = Ok ids →
  Forall (λ k, 0 ≤ k) row_lengths ∧ ids = row_ids_from 0 (Z.to_nat <$> row_lengths).
Proof.
  unfold row_lengths_to_row_ids. case_decide; [|done]. intros [= <-].
  split; [done|]. unfold row_ids_from. by rewrite imap_fmap.
Qed.

(** X12: whenever pooling with a built-in reduce type succeeds, the result
    has one row per node of the incident node set (edges to node), or one
    row per graph component (to context), and is dense or ragged as the
    pooled feature is; success implies that the feature has one row per
    edge, or per member of the components, and that all node indices are
    below the node count. *)
Theorem pool_builtin_shapes {T : Type} `{Dtype T} (g : GraphTensor T)
    (reduce_type : string) (fv : option (Field T)) (fn : option FieldName)
    (out : Field T) :
  (∀ e tag es name indices ns,
     Dict.get (edge_sets g) e = Some es →
     Dict.get (adjacency es) tag = Some (name, indices) →
     Dict.get (node_sets g) name = Some ns →
     pool_edges_to_node _REGISTERED_REDUCE_OPS g e tag reduce_type fv fn = Ok out →
     outer_size out = Z.to_nat (total_node_count ns)
     ∧ ∃ v, resolve_value (edge_features es) fv fn = Ok v
          ∧ outer_size v = length indices
          ∧ is_dense_tensor out = is_dense_tensor v
          ∧ is_ragged_tensor out = is_ragged_tensor v
          ∧ Forall (λ i, i < total_node_count ns) indices)
  ∧ (∀ s,
     _pool_to_context _REGISTERED_REDUCE_OPS g s reduce_type fv fn = Ok out →
     outer_size out = length (sizes s)
     ∧ ∃ v, resolve_value (features s) fv fn = Ok v
          ∧ outer_size v = sum_list (Z.to_nat <$> sizes s)
          ∧ is_dense_tensor out = is_dense_tensor v
          ∧ is_ragged_tensor out = is_ragged_tensor v).
Proof.
  split.
  - intros e tag es name indices ns Hes Hadj Hns.
    unfold pool_edges_to_node, _resolve_reduce_op, getitem, node_set_name,
      adjacency_getitem, mbind, result_mbind, result_bind.
    destruct (check_scalar_graph_tensor g _) as [[]|]; [|done].
    destruct (Dict.get _REGISTERED_REDUCE_OPS reduce_type) as [op|] eqn:Hop; [|done].
    rewrite Hes.
    destruct (resolve_value (edge_features es) fv fn) as [v|]; [|done].
    rewrite Hadj, Hns.
    change (match node_spec_total_size ns with
            | Some n => n
            | None => total_size ns
            end) with (total_node_count ns).
    intros Hout.
    destruct (builtin_shape _ _ _ _ _ _ Hop Hout) as (Hsize & Hd & Hr & Hlen & Hids).
    split; [done|]. exists v. by repeat split.
  - intros s. unfold _pool_to_context, _resolve_reduce_op,
      mbind, result_mbind, result_bind.
    destruct (check_scalar_graph_tensor g _) as [[]|]; [|done].
    destruct (resolve_value (features s) fv fn) as [v|]; [|done].
    destruct (Dict.get _REGISTERED_REDUCE_OPS reduce_type) as [op|] eqn:Hop; [|done].
    destruct (row_lengths_to_row_ids (sizes s)) as [ids|] eqn:Hids; [|done].
    intros Hout.
    destruct (builtin_shape _ _ _ _ _ _ Hop Hout) as (Hsize & Hd & Hr & Hlen & _).
    apply row_lengths_to_row_ids_Ok in Hids as [_ ->].
    rewrite row_ids_from_length in Hlen.
    unfold outer_dimension_size in Hsize. rewrite Nat2Z.id in Hsize.
    split; [done|]. exists v. by repeat split.
Qed.

(** X13: when pooling edges to nodes with a reduce type registered as a
    segment fold, a node without incident edge receives the initial value of
    the fold for a dense feature (the lowest value for max, the highest for
    min) and an empty row for a ragged one. *)
Theorem pool_edges_to_node_isolated_node {T : Type} (reg : Registry T)
    (g : GraphTensor T) (e : EdgeSetName) (tag : IncidentNodeTag)
    (es : EdgeSet T) (name : NodeSetName) (indices : list Z) (ns : NodeSet T)
    (reduce_type : string) (init : T) (comb : T → T → T)
    (fv : option (Field T)) (fn : option FieldName) (out : Field T) (i : nat) :
  Dict.get reg reduce_type = Some (unsorted_segment init comb) →
  Dict.get (edge_sets g) e = Some es →
  Dict.get (adjacency es) tag = Some (name, indices) →
  Dict.get (node_sets g) name = Some ns →
  pool_edges_to_node reg g e tag reduce_type fv fn = Ok out →
  Z.of_nat i < total_node_count ns →
  Z.of_nat i ∉ indices →
  field_rows out !! i
  = Some (if is_dense_tensor out then DenseRow init else RaggedRow []).
Proof.
  intros Hop Hes Hadj Hns.
  unfold pool_edges_to_node, _resolve_reduce_op, getitem, node_set_name,
    adjacency_getitem, mbind, result_mbind, result_bind.
  destruct (check_scalar_graph_tensor g _) as [[]|]; [|done].
  rewrite Hop, Hes.
  destruct (resolve_value (edge_features es) fv fn) as [v|]; [|done].
  rewrite Hadj, Hns.
  change (match node_spec_total_size ns with
          | Some n => n
          | None => total_size ns
          end) with (total_node_count ns).
  intros Hout Hi Hnot.
  unfold unsorted_segment, mbind, result_mbind, result_bind in Hout.
  destruct v as [rows|rows|]; cbv beta iota in Hout; [| |discriminate Hout];
    (destruct (check_segment_ids (length rows) indices _)
       as [[]|]; cbv beta iota in Hout; [|discriminate Hout]);
    injection Hout as <-; cbn [field_rows is_dense_tensor];
    unfold segment_reduce, ragged_segment_reduce;
    rewrite !list_lookup_fmap, lookup_seq_lt by lia; simpl;
    rewrite segment_members_not_elem_of by done; reflexivity.
Qed.

Lemma pool_edges_to_node_isolated_node_witness :
  ∃ out, pool_edges_to_node (T:=Z) _REGISTERED_REDUCE_OPS example_graph "cites" TARGET
           "max" None (Some "weight") = Ok out
     ∧ field_rows out !! 1%nat = Some (DenseRow (- 2 ^ 63)).
Proof.
  exists (Dense [2; - 2 ^ 63; 3]). split; [reflexivity|].
  refine (pool_edges_to_node_isolated_node (T:=Z) _REGISTERED_REDUCE_OPS example_graph
           "cites" TARGET
           {| edge_features := [("weight", Dense [1; 2; 3])];
              edge_sizes := [2; 1];
              edge_spec_total_size := Some 3;
              adjacency := [(SOURCE, ("paper", [2; 0; 1]));
                            (TARGET, ("paper", [0; 0; 2]))] |}
           "paper" [0; 0; 2]
           {| node_features := [("hidden", Dense [10; 20; 30]);
                                ("words", Ragged [[1; 2]; []; [3]])];
              node_sizes := [2; 1];
              node_spec_total_size := None |}
           "max" lowest maximum None (Some "weight") (Dense [2; - 2 ^ 63; 3]) 1%nat
           eq_refl eq_refl eq_refl eq_refl eq_refl eq_refl _).
  intros Hin. repeat (apply elem_of_cons in Hin as [Heq|Hin]; [discriminate Heq|]).
  by apply elem_of_nil in Hin.
Defined.

Lemma pool_to_context_dense {T : Type} (reg : Registry T) (g : GraphTensor T)
    (s : NodeOrEdgeSet T) reduce_type init comb fv fn (rows : list T) :
  rank g = 0%nat →
  Dict.get reg reduce_type = Some (unsorted_segment init comb) →
  resolve_value (features s) fv fn = Ok (Dense rows) →
  Forall (λ k, 0 ≤ k) (sizes s) →
  _pool_to_context reg g s reduce_type fv fn
  = unsorted_segment init comb (Dense rows)
      (row_ids_from 0 (Z.to_nat <$> sizes s)) (outer_dimension_size (sizes s)).
Proof.
  intros Hrank Hop Hv Hsizes.
  unfold _pool_to_context, check_scalar_graph_tensor, _resolve_reduce_op,
    row_lengths_to_row_ids.
  rewrite Hrank. simpl. rewrite Hv. simpl. rewrite Hop. simpl.
  rewrite decide_True by done. simpl. unfold row_ids_from. by rewrite imap_fmap.
Qed.

Lemma unsorted_segment_blocks {T : Type} init comb (rows : list T) (lengths : list Z) :
  Forall (λ k, 0 ≤ k) lengths →
  length rows = sum_list (Z.to_nat <$> lengths) →
  unsorted_segment init comb (Dense rows)
    (row_ids_from 0 (Z.to_nat <$> lengths)) (outer_dimension_size lengths)
  = Ok (Dense (foldl comb init <$> split_rows (Z.to_nat <$> lengths) rows)).
Proof.
  intros Hsizes Hlen.
  unfold unsorted_segment, check_segment_ids, outer_dimension_size.
  rewrite row_ids_from_length. rewrite decide_True by done.
  rewrite decide_True by lia. rewrite decide_True.
  2:{ eapply Forall_impl; [apply row_ids_from_bounds|].
      simpl. intros i. rewrite length_fmap. lia. }
  simpl. unfold segment_reduce. rewrite Nat2Z.id.
  rewrite <- (length_fmap Z.to_nat lengths).
  by rewrite (segments_are_blocks (foldl comb init)).
Qed.

(** X14: pooling a dense feature to the context with a reduce type
    registered as a segment fold reduces, for every component, the
    contiguous block of rows that the component sizes assign to it; a
    feature whose number of rows differs from the sum of the sizes is
    rejected. *)
Theorem pool_to_context_blocks {T : Type} (reg : Registry T) (g : GraphTensor T)
    (s : NodeOrEdgeSet T) (reduce_type : string) (init : T) (comb : T → T → T)
    (fv : option (Field T)) (fn : option FieldName) (rows : list T) :
  rank g = 0%nat →
  Dict.get reg reduce_type = Some (unsorted_segment init comb) →
  resolve_value (features s) fv fn = Ok (Dense rows) →
  Forall (λ k, 0 ≤ k) (sizes s) →
  (length rows = sum_list (Z.to_nat <$> sizes s) →
   _pool_to_context reg g s reduce_type fv fn
   = Ok (Dense (foldl comb init <$> split_rows (Z.to_nat <$> sizes s) rows)))
  ∧ (length rows ≠ sum_list (Z.to_nat <$> sizes s) →
     _pool_to_context reg g s reduce_type fv fn
     = Raise (InvalidArgumentError
                "segment_ids must match the outer dimension of data")).
Proof.
  intros Hrank Hop Hv Hsizes.
  rewrite (pool_to_context_dense reg g s reduce_type init comb fv fn rows) by done.
  split; [by apply unsorted_segment_blocks|].
  intros Hlen. unfold unsorted_segment, check_segment_ids.
  rewrite row_ids_from_length. by rewrite decide_False.
Qed.

Lemma pool_to_context_blocks_witness :
  pool_nodes_to_context (T:=Z) _REGISTERED_REDUCE_OPS example_graph "paper" "sum"
    None (Some "hidden")
  = Ok (Dense [10 + 20; 30])
  ∧ pool_nodes_to_context (T:=Z) _REGISTERED_REDUCE_OPS example_graph "paper" "sum"
      (Some (Dense [10; 20])) None
    = Raise (InvalidArgumentError "segment_ids must match the outer dimension of data").
Proof.
  pose (ns := {| node_features := [("hidden", Dense [10; 20; 30]);
                                   ("words", Ragged [[1; 2]; []; [3]])];
                 node_sizes := [2; 1];
                 node_spec_total_size := None |} : NodeSet Z).
  assert (Forall (λ k, 0 ≤ k) (sizes (OfNodeSet ns))) as Hsizes.
  { repeat constructor; simpl; lia. }
  split.
  - destruct (pool_to_context_blocks (T:=Z) _REGISTERED_REDUCE_OPS example_graph
                (OfNodeSet ns) "sum" zero add None (Some "hidden") [10; 20; 30]
                eq_refl eq_refl eq_refl Hsizes) as [Hok _].
    exact (Hok eq_refl).
  - destruct (pool_to_context_blocks (T:=Z) _REGISTERED_REDUCE_OPS example_graph
                (OfNodeSet ns) "sum" zero add (Some (Dense [10; 20])) None [10; 20]
                eq_refl eq_refl eq_refl Hsizes) as [_ Herr].
    apply Herr. simpl. lia.
Defined.

(** ** Broadcasting from the context and reading it back *)

Section Repeat.
Context {A : Type}.
Implicit Types (rows pre : list A) (repeats : list Z).

Lemma repeat_rows_Ok rows repeats :
  length rows = length repeats → Forall (λ k, 0 ≤ k) repeats →
  repeat_rows rows repeats = Ok (repeated rows repeats).
Proof. intros Hlen Hpos. unfold repeat_rows. by rewrite !decide_True. Qed.

Lemma repeated_cons r rows k repeats :
  repeated (r :: rows) (k :: repeats)
  = replicate (Z.to_nat k) r ++ repeated rows repeats.
Proof. done. Qed.

Lemma repeated_length rows repeats :
  length rows = length repeats → Forall (λ k, 0 ≤ k) repeats →
  Z.of_nat (length (repeated rows repeats)) = sum_list_Z repeats.
Proof.
  intros Hlen Hpos. revert rows Hlen.
  induction Hpos as [|k repeats Hk _ IH]; intros [|r rows] Hlen;
    try discriminate Hlen; [done|].
  rewrite repeated_cons, length_app, length_replicate.
  unfold sum_list_Z in *. simpl. rewrite Nat2Z.inj_add, IH by (simpl in Hlen; lia). lia.
Qed.

Lemma repeated_starts pre rows repeats :
  length rows = length repeats → Forall (λ k, 0 < k) repeats →
  Forall2 (row_at (pre ++ repeated rows repeats))
    (cumsum_exclusive_from (Z.of_nat (length pre)) repeats) rows.
Proof.
  intros Hlen Hpos. revert pre rows Hlen.
  induction Hpos as [|k repeats Hk _ IH]; intros pre [|r rows] Hlen;
    try discriminate Hlen.
  { constructor. }
  simpl. rewrite repeated_cons. constructor.
  - split; [lia|]. rewrite Nat2Z.id, lookup_app_r by lia.
    rewrite Nat.sub_diag. destruct (Z.to_nat k) as [|k'] eqn:Hk'; [lia|done].
  - specialize (IH (pre ++ replicate (Z.to_nat k) r) rows).
    rewrite length_app, length_replicate, Nat2Z.inj_add, Z2Nat.id in IH by lia.
    rewrite <- (assoc_L (++)) in IH. apply IH. simpl in Hlen. lia.
Qed.

Lemma gather_repeated_starts rows repeats :
  length rows = length repeats → Forall (λ k, 0 < k) repeats →
  gather_rows (repeated rows repeats) (cumsum_exclusive repeats) = Ok rows.
Proof.
  intros Hlen Hpos. apply gather_rows_Ok.
  by apply (repeated_starts [] rows repeats).
Qed.
End Repeat.

Lemma positive_nonnegative (l : list Z) :
  Forall (λ k, 0 < k) l → Forall (λ k, 0 ≤ k) l.
Proof. intros Hpos. eapply Forall_impl; [done|]. simpl. intros k. lia. Qed.

(** X15: when every component has at least one node, broadcasting a
    context feature to the nodes gives one row per node, and reading the
    first node of every component back returns the context feature. *)
Theorem broadcast_context_then_gather_first_node {T : Type} (g : GraphTensor T)
    (n : NodeSetName) (ns : NodeSet T) (c : Field T) :
  rank g = 0%nat →
  Dict.get (node_sets g) n = Some ns →
  Forall (λ k, 0 < k) (node_sizes ns) →
  is_supported c = true →
  outer_size c = length (node_sizes ns) →
  ∃ b, broadcast_context_to_nodes g n (Some c) None = Ok b
     ∧ Z.of_nat (outer_size b) = total_size ns
     ∧ gather_first_node g n (Some b) None = Ok c.
Proof.
  intros Hrank Hns Hpos Hsup Hsize.
  pose proof (positive_nonnegative _ Hpos) as Hnonneg.
  assert (∀ b, gather_first_node g n (Some b) None
               = tf_gather b (cumsum_exclusive (node_sizes ns))) as Hgather.
  { intros b. unfold gather_first_node, check_scalar_graph_tensor, getitem,
      assert_positive.
    rewrite Hrank. simpl. rewrite Hns. simpl. by rewrite decide_True. }
  assert (broadcast_context_to_nodes g n (Some c) None = repeat c (node_sizes ns))
    as Hbroadcast.
  { unfold broadcast_context_to_nodes, _broadcast_context,
      check_scalar_graph_tensor, getitem.
    rewrite Hns. simpl. by rewrite Hrank. }
  rewrite Hbroadcast. unfold total_size.
  destruct c as [rows|rows|]; [| |done]; simpl in *;
    rewrite repeat_rows_Ok by done; simpl; eexists; (split; [done|]);
    rewrite Hgather; simpl; rewrite gather_repeated_starts by done;
    split; [|done| |done]; by apply repeated_length.
Qed.

Lemma broadcast_context_then_gather_first_node_witness :
  ∃ b, broadcast_context_to_nodes example_graph "paper" (Some (Dense [100; 200])) None
       = Ok b
     ∧ Z.of_nat (outer_size b) = 3
     ∧ gather_first_node example_graph "paper" (Some b) None = Ok (Dense [100; 200]).
Proof.
  apply (broadcast_context_then_gather_first_node example_graph "paper"
           {| node_features := [("hidden", Dense [10; 20; 30]);
                                ("words", Ragged [[1; 2]; []; [3]])];
              node_sizes := [2; 1];
              node_spec_total_size := None |}
           (Dense [100; 200])); try reflexivity.
  repeat constructor.
Defined.

Section RepeatBlocks.
Context {A : Type}.

Lemma split_rows_join (ls : list (list A)) :
  split_rows (length <$> ls) (mjoin ls) = ls.
Proof.
  induction ls as [|l ls IH]; [done|].
  change (split_rows (length l :: (length <$> ls)) (l ++ mjoin ls) = l :: ls).
  simpl. by rewrite take_app_length, drop_app_length, IH.
Qed.

Lemma repeated_block_lengths (rows : list A) (repeats : list Z) :
  length rows = length repeats →
  length <$> zip_with (λ r k, replicate (Z.to_nat k) r) rows repeats
  = Z.to_nat <$> repeats.
Proof.
  revert repeats. induction rows as [|r rows IH]; intros [|k repeats] Hlen;
    try discriminate Hlen; [done|].
  csimpl. rewrite length_replicate, IH; [done|]. simpl in Hlen. lia.
Qed.

Lemma repeated_blocks (rows : list A) (repeats : list Z) :
  length rows = length repeats →
  split_rows (Z.to_nat <$> repeats) (repeated rows repeats)
  = zip_with (λ r k, replicate (Z.to_nat k) r) rows repeats.
Proof.
  intros Hlen. rewrite <- (repeated_block_lengths rows repeats Hlen).
  apply split_rows_join.
Qed.

Lemma foldl_replicate_idempotent (init : A) (comb : A → A → A) (r : A) k :
  comb init r = r → comb r r = r → (0 < k)%nat →
  foldl comb init (replicate k r) = r.
Proof.
  intros Hid Hidem Hk. destruct k as [|k]; [lia|]. simpl. rewrite Hid.
  clear Hk. induction k as [|k IH]; [done|]. simpl. by rewrite Hidem.
Qed.
End RepeatBlocks.

(** X16: when every component has at least one member, broadcasting a dense
    context feature to a node or edge set and pooling it back to the context
    returns the feature, for every reduce type registered as a segment fold
    whose combining operation is idempotent on the rows and has the initial
    value as left identity on them (such as max and min). *)
Theorem broadcast_context_then_pool {T : Type} (reg : Registry T)
    (g : GraphTensor T) (s : NodeOrEdgeSet T) (reduce_type : string)
    (init : T) (comb : T → T → T) (rows : list T) :
  rank g = 0%nat →
  Dict.get reg reduce_type = Some (unsorted_segment init comb) →
  Forall (λ x, comb init x = x ∧ comb x x = x) rows →
  Forall (λ k, 0 < k) (sizes s) →
  length rows = length (sizes s) →
  ∃ b, _broadcast_context g s (Some (Dense rows)) None = Ok b
     ∧ _pool_to_context reg g s reduce_type (Some b) None = Ok (Dense rows).
Proof.
  intros Hrank Hop Hlaws Hpos Hlen.
  pose proof (positive_nonnegative _ Hpos) as Hnonneg.
  exists (Dense (repeated rows (sizes s))). split.
  { unfold _broadcast_context, check_scalar_graph_tensor. rewrite Hrank. simpl.
    by rewrite repeat_rows_Ok. }
  rewrite (pool_to_context_dense reg g s reduce_type init comb _ _
             (repeated rows (sizes s))) by done.
  rewrite unsorted_segment_blocks; [|done|].
  2:{ apply Nat2Z.inj. rewrite repeated_length by done.
      clear -Hnonneg. induction Hnonneg as [|k l Hk _ IH]; [done|].
      unfold sum_list_Z in *. csimpl. rewrite Nat2Z.inj_add, <- IH. lia. }
  rewrite repeated_blocks by done. do 2 f_equal.
  clear Hop Hnonneg. revert rows Hlaws Hlen.
  induction Hpos as [|k l Hk _ IH]; intros [|r rows] Hlaws Hlen;
    try discriminate Hlen; [done|].
  apply Forall_cons in Hlaws as [[Hid Hidem] Hlaws]. csimpl.
  rewrite foldl_replicate_idempotent by (done || lia).
  f_equal. apply IH; [done|]. simpl in Hlen. lia.
Qed.

Lemma broadcast_context_then_pool_witness :
  ∃ b, broadcast_context_to_nodes example_graph "paper" (Some (Dense [100; 200])) None
       = Ok b
     ∧ pool_nodes_to_context _REGISTERED_REDUCE_OPS example_graph "paper" "max"
         (Some b) None = Ok (Dense [100; 200]).
Proof.
  apply (broadcast_context_then_pool (T:=Z) _REGISTERED_REDUCE_OPS example_graph
           (OfNodeSet {| node_features := [("hidden", Dense [10; 20; 30]);
                                           ("words", Ragged [[1; 2]; []; [3]])];
                         node_sizes := [2; 1];
                         node_spec_total_size := None |})
           "max" lowest maximum [100; 200]); try reflexivity.
  - repeat constructor.
  - repeat constructor.
Defined.

(** ** Shuffled features keep their shape *)

Lemma field_shuffled_shape {T} (v v' : Field T) :
  field_shuffled v v' →
  outer_size v' = outer_size v
  ∧ is_dense_tensor v' = is_dense_tensor v
  ∧ is_ragged_tensor v' = is_ragged_tensor v
  ∧ is_supported v' = true.
Proof.
  destruct v as [rows|rows|], v' as [rows'|rows'|]; simpl; try done.
  - intros Hperm. by rewrite (Permutation_length Hperm).
  - intros [Hlens _]. split; [|done].
    by rewrite <- (length_fmap length rows'), Hlens, length_fmap.
Qed.

(** X17: [_shuffle_features] succeeds only on mappings whose features are
    all dense or ragged, and then returns a mapping with the same names in
    the same order in which every feature is of the same kind and has the
    same number of rows as the original, so that it can be shuffled
    again. *)
Theorem shuffle_features_keep_shape {T G : Type} `{RandomShuffle G}
    (fs fs' : Fields T) (seed : option Z) (g g' : G) :
  _shuffle_features fs seed g = Ok (fs', g') →
  fields_supported fs = true
  ∧ fields_supported fs' = true
  ∧ Dict.keys fs' = Dict.keys fs
  ∧ ∀ name v', Dict.get fs' name = Some v' →
      ∃ v, Dict.get fs name = Some v
        ∧ outer_size v' = outer_size v
        ∧ is_dense_tensor v' = is_dense_tensor v
        ∧ is_ragged_tensor v' = is_ragged_tensor v.
Proof.
  intros Hrun.
  destruct (fields_supported fs) eqn:Hsup.
  2:{ pose proof (shuffle_features_unsupported fs seed g Hsup) as Herr.
      by rewrite Hrun in Herr. }
  destruct (shuffle_features_supported fs seed g Hsup) as (fs1 & g1 & Hrun1 & Hkeys & Hsh).
  rewrite Hrun in Hrun1. injection Hrun1 as <- <-.
  split; [done|]. 
  assert (∀ name v', Dict.get fs' name = Some v' →
            ∃ v, Dict.get fs name = Some v ∧ field_shuffled v v') as Hback.
  { intros name v' Hv'.
    assert (name ∈ Dict.keys fs) as Hin.
    { rewrite <- Hkeys. apply dict_elem_of_keys. eauto. }
    apply dict_elem_of_keys in Hin as [v Hv]. exists v. split; [done|].
    destruct (Hsh name v Hv) as (v1 & Hv1 & Hshuffled). congruence. }
  split; [|split; [done|]].
  - unfold fields_supported. apply forallb_forall. intros name Hin.
    apply list_elem_of_In, dict_elem_of_keys in Hin as [v' Hv'].
    unfold name_supported.
    rewrite Hv'. simpl. destruct (Hback name v' Hv') as (v & _ & Hshuffled).
    apply field_shuffled_shape in Hshuffled as (_ & _ & _ & ->). done.
  - intros name v' Hv'. destruct (Hback name v' Hv') as (v & Hv & Hshuffled).
    exists v. split; [done|].
    by apply field_shuffled_shape in Hshuffled as (? & ? & ? & _).
Qed.

Lemma shuffle_features_keep_shape_witness :
  fields_supported (T:=Z) [("words", Ragged [[3; 2]; []; [1]])] = true
  ∧ Dict.keys (V:=Field Z) [("words", Ragged [[3; 2]; []; [1]])] = ["words"].
Proof.
  assert (_shuffle_features (T:=Z) [("words", Ragged [[1; 2]; []; [3]])] None 0%nat
          = Ok ([("words", Ragged [[3; 2]; []; [1]])], 1%nat)) as Hrun
    by reflexivity.
  destruct (shuffle_features_keep_shape _ _ _ _ _ Hrun) as (_ & Hsup & Hkeys & _).
  by split.
Defined.
